(** * hono-honeypot: the honeypot middleware and its rule engine

    A shallow embedding of [honeypot] (src/index.ts and the two later
    snapshots of the same file) together with the part of the JavaScript
    runtime it calls: strings, [RegExp.prototype.test] with its [lastIndex]
    protocol, [String.prototype.replace], [split] and [trim]. *)

From Stdlib Require Import Bool Arith Lia List Ascii String ZArith.
Import ListNotations.

Set Implicit Arguments.

(** ** Strings

    A JavaScript string is a sequence of code units; the development works
    with the code units below 256, that is with Rocq's [string]. *)

Module Str.

Definition chars (s : string) : list ascii := list_ascii_of_string s.
Definition of_chars (l : list ascii) : string := string_of_list_ascii l.

Definition code (c : ascii) : nat := nat_of_ascii c.

Definition between (lo hi : nat) (c : ascii) : bool :=
  (lo <=? code c) && (code c <=? hi).

Definition is_digit : ascii -> bool := between 48 57.
Definition is_lower : ascii -> bool := between 97 122.
Definition is_upper : ascii -> bool := between 65 90.

(** Lower-case letters of the Latin-1 supplement whose upper case is a
    single code unit of the same block: U+00E0..U+00FE without U+00F7. *)
Definition is_lower_latin1 (c : ascii) : bool :=
  between 224 254 c && negb (code c =? 247).

(** [toUpperCase] on one code unit, as the case-insensitive matcher uses
    it (Canonicalize): a unit whose upper case is not one unit of the
    model, or would fall below 128 from above, is left as it is. *)
Definition upper (c : ascii) : ascii :=
  if is_lower c || is_lower_latin1 c then ascii_of_nat (code c - 32) else c.

(** Upper-case letters of the Latin-1 supplement: U+00C0..U+00DE without
    U+00D7. *)
Definition is_upper_latin1 (c : ascii) : bool :=
  between 192 222 c && negb (code c =? 215).

(** [toLowerCase] on one code unit. *)
Definition lower (c : ascii) : ascii :=
  if is_upper c || is_upper_latin1 c then ascii_of_nat (code c + 32) else c.

(** [s.toLowerCase()]: every code unit in place; no code unit below 256
    has a lower case of several units or outside the model. *)
Definition toLowerCase (s : string) : string :=
  of_chars (map lower (chars s)).

(** The code units [toUpperCase] writes for one code unit, as numbers:
    U+00DF (sharp s) becomes [SS]; the capital letters of U+00B5 (micro
    sign) and U+00FF are U+039C and U+0178, which are no code units of the
    model. *)
Definition upper_units (c : ascii) : list nat :=
  if code c =? 223 then [83; 83]
  else if code c =? 181 then [924]
  else if code c =? 255 then [376]
  else [code (upper c)].

(** [s.toUpperCase()], when the result is a string of the model. *)
Definition toUpperCase (s : string) : option string :=
  let units := flat_map upper_units (chars s) in
  if forallb (fun u => u <? 256) units
  then Some (of_chars (map ascii_of_nat units))
  else None.

(** LineTerminator: LF and CR. *)
Definition is_line_terminator (c : ascii) : bool :=
  (code c =? 10) || (code c =? 13).

(** WhiteSpace and LineTerminator, the units [trim] strips:
    TAB, LF, VT, FF, CR, SP, NBSP. *)
Definition is_space (c : ascii) : bool :=
  between 9 13 c || (code c =? 32) || (code c =? 160).

(** The word characters of [\w] and [\b]: letters, digits and [_]. *)
Definition is_word (c : ascii) : bool :=
  is_lower c || is_upper c || is_digit c || (code c =? 95).

(** The value of a hexadecimal digit. *)
Definition hex_value (c : ascii) : option nat :=
  if is_digit c then Some (code c - 48)
  else if between 97 102 c then Some (code c - 87)
  else if between 65 70 c then Some (code c - 55)
  else None.

(** [s.split(sep)] for a separator of one code unit: never empty. *)
Fixpoint split_chars (sep : ascii) (cur : list ascii) (l : list ascii)
  : list (list ascii) :=
  match l with
  | [] => [rev cur]
  | c :: l' =>
      if Ascii.eqb c sep then rev cur :: split_chars sep [] l'
      else split_chars sep (c :: cur) l'
  end.

Definition split (sep : ascii) (s : string) : list string :=
  map of_chars (split_chars sep [] (chars s)).

Fixpoint trim_start (l : list ascii) : list ascii :=
  match l with
  | c :: l' => if is_space c then trim_start l' else l
  | [] => []
  end.

(** [s.trim()] *)
Definition trim (s : string) : string :=
  of_chars (rev (trim_start (rev (trim_start (chars s))))).

End Str.

(** ** Regular expressions

    The pattern language of the signatures: the ECMAScript grammar of a
    RegExp without the [u] and [v] flags, short of what needs captures
    (back-references, named groups), of look-behind and of the escapes
    [\c], [\u] and the octal ones. *)

Module Regex.

(** The members of a character class. *)
Inductive class_item : Type :=
| One (c : ascii)                         (* a class atom of one code unit *)
| Range (lo hi : ascii)                   (* lo-hi *)
| Digits (complement : bool)              (* \d, \D *)
| Words (complement : bool)               (* \w, \W *)
| Spaces (complement : bool).             (* \s, \S *)

Inductive regex : Type :=
| Empty                                   (* the empty alternative *)
| Chr (c : ascii)                         (* pattern character, identity escape *)
| AnyChar                                 (* .  *)
| Digit                                   (* \d *)
| LineStart                               (* ^  *)
| LineEnd                                 (* $  *)
| Seq (r1 r2 : regex)
| Alt (r1 r2 : regex)                     (* r1|r2 *)
| Group (r : regex)                       (* (r) and (?:r) *)
| Repeat (r : regex) (min : nat) (extra : option nat)
    (* r{min,min+extra}; [extra = None] is unbounded: r*, r+, r{min,} *)
| RepeatLazy (r : regex) (min : nat) (extra : option nat)
    (* the same followed by [?]: r*?, r+?, r??, r{min,max}? *)
| Class (invert : bool) (items : list class_item)
    (* [items] and [^items]; \D, \w, \W, \s, \S outside brackets *)
| WordBoundary (negated : bool)           (* \b, \B *)
| Lookahead (negated : bool) (r : regex). (* (?=r), (?!r) *)

(** *** Parsing a pattern source

    Recursive descent over the source text.  [None] is a source outside
    the fragment (back-references, named groups, look-behind, the escapes
    [\c], [\u] and the octal ones, an escaped letter or [_] without a
    meaning, a class range with a class escape at one end, a quantified
    look-ahead, a bracket or brace that stands for itself) or one the
    constructor rejects.  The three parsers call each other with one unit
    of fuel less; a call either consumes a character or is one of at most
    three calls between two characters, which is what the fuel of [parse]
    allows for. *)

Definition parsed : Type := option (regex * list ascii).

Definition is_syntax_char (c : ascii) : bool :=
  existsb (Ascii.eqb c) (Str.chars "^$\.*+?()[]{}|").

Fixpoint pNat (acc : nat) (s : list ascii) : nat * list ascii :=
  match s with
  | c :: s' =>
      if Str.is_digit c then pNat (10 * acc + (Str.code c - 48)) s'
      else (acc, s)
  | [] => (acc, s)
  end.

Definition starts_with_digit (s : list ascii) : bool :=
  match s with c :: _ => Str.is_digit c | [] => false end.

(** A quantifier followed by [?] is lazy. *)
Definition pLazy (r : regex) (s : list ascii) : parsed :=
  match r, s with
  | Repeat a lo extra, "?"%char :: s' => Some (RepeatLazy a lo extra, s')
  | _, _ => Some (r, s)
  end.

Definition pBraces (a : regex) (s : list ascii) : parsed :=
  if starts_with_digit s then
    let (lo, s1) := pNat 0 s in
    match s1 with
    | "}"%char :: s2 => pLazy (Repeat a lo (Some 0)) s2
    | ","%char :: "}"%char :: s2 => pLazy (Repeat a lo None) s2
    | ","%char :: s2 =>
        if starts_with_digit s2 then
          let (hi, s3) := pNat 0 s2 in
          match s3 with
          | "}"%char :: s4 =>
              if lo <=? hi then pLazy (Repeat a lo (Some (hi - lo))) s4
              else None
          | _ => None
          end
        else None
    | _ => None
    end
  else None.

Definition pQuantifier (a : regex) (s : list ascii) : parsed :=
  match s with
  | "*"%char :: s' => pLazy (Repeat a 0 None) s'
  | "+"%char :: s' => pLazy (Repeat a 1 None) s'
  | "?"%char :: s' => pLazy (Repeat a 0 (Some 1)) s'
  | "{"%char :: s' => pBraces a s'
  | _ => Some (a, s)
  end.

(** IdentityEscape, for the characters that are neither letters, digits
    nor [_]: the syntax characters, [/], [-] and the like. *)
Definition is_identity_escape (c : ascii) : bool :=
  Str.between 32 126 c &&
  negb (Str.is_word c).

(** CharacterEscape: the escapes that stand for one code unit. *)
Definition pCharacterEscape (s : list ascii) : option (ascii * list ascii) :=
  match s with
  | "t"%char :: s' => Some (ascii_of_nat 9, s')
  | "n"%char :: s' => Some (ascii_of_nat 10, s')
  | "v"%char :: s' => Some (ascii_of_nat 11, s')
  | "f"%char :: s' => Some (ascii_of_nat 12, s')
  | "r"%char :: s' => Some (ascii_of_nat 13, s')
  | "0"%char :: s' =>
      if starts_with_digit s' then None else Some (ascii_of_nat 0, s')
  | "x"%char :: h1 :: h2 :: s' =>
      match Str.hex_value h1, Str.hex_value h2 with
      | Some a, Some b => Some (ascii_of_nat (16 * a + b), s')
      | _, _ => None
      end
  | c :: s' => if is_identity_escape c then Some (c, s') else None
  | [] => None
  end.

(** CharacterClassEscape *)
Definition pClassEscape (s : list ascii) : option (class_item * list ascii) :=
  match s with
  | "d"%char :: s' => Some (Digits false, s')
  | "D"%char :: s' => Some (Digits true, s')
  | "w"%char :: s' => Some (Words false, s')
  | "W"%char :: s' => Some (Words true, s')
  | "s"%char :: s' => Some (Spaces false, s')
  | "S"%char :: s' => Some (Spaces true, s')
  | _ => None
  end.

(** AtomEscape, the text behind the backslash. *)
Definition pEscape (s : list ascii) : parsed :=
  match s with
  | "d"%char :: s' => Some (Digit, s')
  | _ =>
      match pClassEscape s with
      | Some (it, s') => Some (Class false [it], s')
      | None =>
          match pCharacterEscape s with
          | Some (c, s') => Some (Chr c, s')
          | None => None
          end
      end
  end.

(** ClassAtom: one code unit, or a class escape. *)
Inductive class_atom : Type :=
| AtomChar (c : ascii)
| AtomSet (it : class_item).

Definition item_of (a : class_atom) : class_item :=
  match a with
  | AtomChar c => One c
  | AtomSet it => it
  end.

Definition pClassAtom (s : list ascii) : option (class_atom * list ascii) :=
  match s with
  | "\"%char :: "b"%char :: s' => Some (AtomChar (ascii_of_nat 8), s')
  | "\"%char :: s' =>
      match pClassEscape s' with
      | Some (it, s'') => Some (AtomSet it, s'')
      | None =>
          match pCharacterEscape s' with
          | Some (c, s'') => Some (AtomChar c, s'')
          | None => None
          end
      end
  | "]"%char :: _ => None
  | c :: s' => Some (AtomChar c, s')
  | [] => None
  end.

(** ClassRanges up to the closing bracket.  A dash between two atoms makes
    a range; a dash before the closing bracket, or first, is an atom.
    Every round consumes a character. *)
Fixpoint pClassRanges (fuel : nat) (acc : list class_item) (s : list ascii)
  {struct fuel} : option (list class_item * list ascii) :=
  match fuel with
  | 0 => None
  | S fuel =>
      match s with
      | "]"%char :: s' => Some (rev acc, s')
      | _ =>
          match pClassAtom s with
          | Some (a, "-"%char :: "]"%char :: s1) =>
              pClassRanges fuel (item_of a :: acc) ("-"%char :: "]"%char :: s1)
          | Some (a, "-"%char :: s1) =>
              match a, pClassAtom s1 with
              | AtomChar lo, Some (AtomChar hi, s2) =>
                  if Str.code lo <=? Str.code hi
                  then pClassRanges fuel (Range lo hi :: acc) s2
                  else None
              | _, _ => None
              end
          | Some (a, s1) => pClassRanges fuel (item_of a :: acc) s1
          | None => None
          end
      end
  end.

Definition pClass (s : list ascii) : parsed :=
  let (invert, s0) :=
    match s with
    | "^"%char :: s' => (true, s')
    | _ => (false, s)
    end in
  match pClassRanges (S (List.length s0)) [] s0 with
  | Some (items, s') => Some (Class invert items, s')
  | None => None
  end.

Fixpoint pDisjunction (fuel : nat) (s : list ascii) {struct fuel} : parsed :=
  match fuel with
  | 0 => None
  | S fuel =>
      match pAlternative fuel s with
      | Some (a, "|"%char :: s') =>
          match pDisjunction fuel s' with
          | Some (d, s'') => Some (Alt a d, s'')
          | None => None
          end
      | other => other
      end
  end
with pAlternative (fuel : nat) (s : list ascii) {struct fuel} : parsed :=
  match fuel with
  | 0 => None
  | S fuel =>
      match s with
      | [] => Some (Empty, s)
      | "|"%char :: _ => Some (Empty, s)
      | ")"%char :: _ => Some (Empty, s)
      | _ =>
          match pTerm fuel s with
          | Some (t, s') =>
              match pAlternative fuel s' with
              | Some (a, s'') => Some (Seq t a, s'')
              | None => None
              end
          | None => None
          end
      end
  end
with pTerm (fuel : nat) (s : list ascii) {struct fuel} : parsed :=
  match fuel with
  | 0 => None
  | S fuel =>
      match s with
      | "^"%char :: s' => Some (LineStart, s')
      | "$"%char :: s' => Some (LineEnd, s')
      | "."%char :: s' => pQuantifier AnyChar s'
      | "\"%char :: "b"%char :: s' => Some (WordBoundary false, s')
      | "\"%char :: "B"%char :: s' => Some (WordBoundary true, s')
      | "\"%char :: s' =>
          match pEscape s' with
          | Some (a, s'') => pQuantifier a s''
          | None => None
          end
      | "["%char :: s' =>
          match pClass s' with
          | Some (a, s'') => pQuantifier a s''
          | None => None
          end
      | "("%char :: "?"%char :: "="%char :: s' =>
          match pDisjunction fuel s' with
          | Some (d, ")"%char :: s'') => Some (Lookahead false d, s'')
          | _ => None
          end
      | "("%char :: "?"%char :: "!"%char :: s' =>
          match pDisjunction fuel s' with
          | Some (d, ")"%char :: s'') => Some (Lookahead true d, s'')
          | _ => None
          end
      | "("%char :: s' =>
          let body :=
            match s' with
            | "?"%char :: ":"%char :: s'' => pDisjunction fuel s''
            | "?"%char :: _ => None
            | _ => pDisjunction fuel s'
            end in
          match body with
          | Some (d, ")"%char :: s'') => pQuantifier (Group d) s''
          | _ => None
          end
      | c :: s' =>
          if is_syntax_char c then None else pQuantifier (Chr c) s'
      | [] => None
      end
  end.

Definition parse (source : string) : option regex :=
  let s := Str.chars source in
  match pDisjunction (3 * List.length s + 3) s with
  | Some (r, []) => Some r
  | _ => None
  end.

(** *** Matching

    The backtracking matcher of the language specification, in
    continuation-passing style: [m r k i] runs [r] at index [i] of the
    input and hands every end index to [k] in priority order; the first
    answer of [k] is the answer. *)

(** The code units of the model. *)
Definition all_units : list ascii := map ascii_of_nat (seq 0 256).

Definition in_item (it : class_item) (c : ascii) : bool :=
  match it with
  | One a => Ascii.eqb c a
  | Range lo hi => (Str.code lo <=? Str.code c) && (Str.code c <=? Str.code hi)
  | Digits complement => xorb complement (Str.is_digit c)
  | Words complement => xorb complement (Str.is_word c)
  | Spaces complement => xorb complement (Str.is_space c)
  end.

Section Matcher.

Variables (ignoreCase multiline dotAll : bool).
Variable input : list ascii.

Definition canonicalize (c : ascii) : ascii :=
  if ignoreCase then Str.upper c else c.

(** CharacterSetMatcher: the set has a member with the canonical form of
    the input character, or has none when the class is inverted. *)
Definition in_class (invert : bool) (items : list class_item) (ch : ascii)
  : bool :=
  xorb invert
       (existsb
          (fun a =>
             existsb (fun it => in_item it a) items &&
             Ascii.eqb (canonicalize a) (canonicalize ch))
          all_units).

(** IsWordChar *)
Definition is_word_at (i : nat) : bool :=
  match nth_error input i with
  | Some c => Str.is_word c
  | None => false
  end.

Definition at_word_boundary (i : nat) : bool :=
  xorb (match i with 0 => false | S j => is_word_at j end) (is_word_at i).

Definition char_at (i : nat) (p : ascii -> bool) (k : nat -> option nat)
  : option nat :=
  match nth_error input i with
  | Some c => if p c then k (S i) else None
  | None => None
  end.

Definition at_line_start (i : nat) : bool :=
  match i with
  | 0 => true
  | S j =>
      multiline &&
      match nth_error input j with
      | Some c => Str.is_line_terminator c
      | None => false
      end
  end.

Definition at_line_end (i : nat) : bool :=
  match nth_error input i with
  | None => i =? List.length input
  | Some c => multiline && Str.is_line_terminator c
  end.

(** The repetition of a matcher [mr], as RepeatMatcher: [required]
    iterations first, then up to [n] optional ones, greedily; an
    optional iteration that consumes nothing is rejected. *)
Fixpoint optional (mr : (nat -> option nat) -> nat -> option nat)
  (k : nat -> option nat) (n : nat) (i : nat) {struct n} : option nat :=
  match n with
  | 0 => k i
  | S n' =>
      match mr (fun j => if j =? i then None else optional mr k n' j) i with
      | Some e => Some e
      | None => k i
      end
  end.

(** The optional iterations of a lazy quantifier: the continuation is
    tried before one more iteration. *)
Fixpoint optional_lazy (mr : (nat -> option nat) -> nat -> option nat)
  (k : nat -> option nat) (n : nat) (i : nat) {struct n} : option nat :=
  match n with
  | 0 => k i
  | S n' =>
      match k i with
      | Some e => Some e
      | None =>
          mr (fun j => if j =? i then None else optional_lazy mr k n' j) i
      end
  end.

Fixpoint required (mr : (nat -> option nat) -> nat -> option nat)
  (k : nat -> option nat) (n : nat) (i : nat) {struct n} : option nat :=
  match n with
  | 0 => k i
  | S n' => mr (required mr k n') i
  end.

Fixpoint m (r : regex) (k : nat -> option nat) (i : nat) {struct r}
  : option nat :=
  match r with
  | Empty => k i
  | Chr p =>
      char_at i (fun c => Ascii.eqb (canonicalize c) (canonicalize p)) k
  | AnyChar =>
      char_at i (fun c => dotAll || negb (Str.is_line_terminator c)) k
  | Digit => char_at i Str.is_digit k
  | LineStart => if at_line_start i then k i else None
  | LineEnd => if at_line_end i then k i else None
  | Seq r1 r2 => m r1 (m r2 k) i
  | Alt r1 r2 =>
      match m r1 k i with
      | Some e => Some e
      | None => m r2 k i
      end
  | Group r' => m r' k i
  | Repeat r' min extra =>
      (* every optional iteration consumes a code unit, so that no more
         than [length input] of them can succeed: the bound of an
         unbounded quantifier *)
      let bound :=
        match extra with
        | Some x => x
        | None => List.length input
        end in
      required (m r') (optional (m r') k bound) min i
  | RepeatLazy r' min extra =>
      let bound :=
        match extra with
        | Some x => x
        | None => List.length input
        end in
      required (m r') (optional_lazy (m r') k bound) min i
  | Class invert items => char_at i (in_class invert items) k
  | WordBoundary negated =>
      if xorb negated (at_word_boundary i) then k i else None
  | Lookahead negated r' =>
      (* the assertion is run to its first answer and not re-entered *)
      match m r' Some i with
      | Some _ => if negated then None else k i
      | None => if negated then k i else None
      end
  end.

(** One attempt per start index, left to right: the loop of
    RegExpBuiltinExec.  The answer is the pair of the start and the end
    index of the match. *)
Fixpoint scan (r : regex) (attempts : nat) (i : nat) : option (nat * nat) :=
  match attempts with
  | 0 => None
  | S n =>
      match m r Some i with
      | Some e => Some (i, e)
      | None => scan r n (S i)
      end
  end.

End Matcher.

End Regex.

(** ** The runtime state

    What a request can observe or change outside its own locals: the
    [lastIndex] slot of every RegExp object and the console.  [tests]
    counts the calls of [RegExp.prototype.test]; it is instrumentation,
    read by no code. *)

Record LogLine : Type := mkLogLine {
  ll_ip : string;
  ll_method : string;
  ll_path : string
}.

Record World : Type := mkWorld {
  lastIndex : nat -> nat;
  console : list LogLine;
  tests : nat
}.

Definition world0 : World := mkWorld (fun _ => 0) [] 0.

(** A computation that reads and updates the world. *)
Definition M (A : Type) : Type := World -> A * World.

Definition ret {A} (a : A) : M A := fun w => (a, w).

Definition bind {A B} (c : M A) (f : A -> M B) : M B :=
  fun w => let (a, w') := c w in f a w'.

Declare Scope js_scope.
Delimit Scope js_scope with js.
Notation "x <- c ;; k" := (bind c (fun x => k))
  (at level 61, c at next level, right associativity) : js_scope.
Notation "c ;;; k" := (bind c (fun _ => k))
  (at level 61, right associativity) : js_scope.

(** ** RegExp objects *)

Record RegExp : Type := mkRegExp {
  source : string;          (* the pattern text between the slashes *)
  flags : string;           (* the flag letters after the closing slash *)
  ref : nat                 (* the identity of the object *)
}.

Module RegExpObject.

Definition has_flag (f : ascii) (r : RegExp) : bool :=
  existsb (Ascii.eqb f) (Str.chars (flags r)).

Definition ignoreCase := has_flag "i".
Definition global := has_flag "g".
Definition multiline := has_flag "m".
Definition dotAll := has_flag "s".
Definition sticky := has_flag "y".

(** A RegExp whose [test] reads and writes [lastIndex]. *)
Definition stateful (r : RegExp) : bool := global r || sticky r.

Definition set_lastIndex (r : RegExp) (v : nat) : M unit :=
  fun w =>
    (tt, mkWorld (fun l => if l =? ref r then v else lastIndex w l)
                 (console w) (tests w)).

Definition tick : M unit :=
  fun w => (tt, mkWorld (lastIndex w) (console w) (S (tests w))).

(** RegExpBuiltinExec on a compiled pattern, from start index [li]: the
    start and the end of the match found.  A sticky pattern tries [li]
    only; no attempt is made beyond the end of the input. *)
Definition exec_from (r : RegExp) (p : Regex.regex) (str : string) (li : nat)
  : option (nat * nat) :=
  let input := Str.chars str in
  let room := List.length input + 1 - li in
  Regex.scan (ignoreCase r) (multiline r) (dotAll r) input p
             (if sticky r then Nat.min 1 room else room) li.

(** The match of [r] in [str] with [lastIndex] at 0: what [test] computes
    for a pattern that is neither global nor sticky.  The answer is that of
    the RegExp for a source [Regex.parse] accepts; for another source it is
    [false] and stands for nothing. *)
Definition matches (r : RegExp) (str : string) : bool :=
  match Regex.parse (source r) with
  | Some p =>
      match exec_from r p str 0 with Some _ => true | None => false end
  | None => false
  end.

(** [r.test(str)]: RegExpBuiltinExec from index 0, or from [lastIndex]
    when [r] is global or sticky, in which case [lastIndex] becomes the end
    of the match, or 0 after a failure.  This is [test] for a source
    [Regex.parse] accepts.  For another source the answer is [false] and
    [lastIndex] stays, which is not what the RegExp of that source does:
    a statement about signatures of the caller's choice names the ones it
    is about. *)
Definition test (r : RegExp) (str : string) : M bool :=
  (tick ;;;
   match Regex.parse (source r) with
   | None => ret false
   | Some p =>
       if stateful r then
         fun w =>
           match exec_from r p str (lastIndex w (ref r)) with
           | Some (_, e) => (set_lastIndex r e ;;; ret true) w
           | None => (set_lastIndex r 0 ;;; ret false) w
           end
       else
         ret (match exec_from r p str 0 with Some _ => true | None => false end)
   end)%js.

(** [str.replace(r, by)] for a global [r] and a replacement text without
    [$]: every match, left to right, is replaced.  [from] is the
    [lastIndex] of the loop and [copied] the end of the previous match;
    after an empty match the loop steps over one code unit. *)
Fixpoint replace_loop (r : RegExp) (p : Regex.regex) (str : string)
  (by_ : list ascii) (fuel : nat) (from copied : nat) : list ascii :=
  match fuel with
  | 0 => skipn copied (Str.chars str)
  | S fuel' =>
      match exec_from r p str from with
      | None => skipn copied (Str.chars str)
      | Some (b, e) =>
          firstn (b - copied) (skipn copied (Str.chars str)) ++ by_ ++
          replace_loop r p str by_ fuel' (if e =? b then S e else e) e
      end
  end.

Definition replace_global (r : RegExp) (by_ : string) (str : string) : string :=
  match Regex.parse (source r) with
  | Some p =>
      Str.of_chars
        (replace_loop r p str (Str.chars by_) (String.length str + 2) 0 0)
  | None => str
  end.

End RegExpObject.

(** ** The host framework

    What the middleware consumes from Hono: the request path and method, the
    header lookup of [c.req.header], the continuation [next] and the response
    constructor [c.body]. *)

Inductive StatusCode : Type := Gone | NotFound | Forbidden.   (* 410 | 404 | 403 *)

Definition code (s : StatusCode) : Z :=
  match s with
  | Gone => 410
  | NotFound => 404
  | Forbidden => 403
  end%Z.

Record Context : Type := mkContext {
  req_path : string;                        (* c.req.path *)
  req_method : string;                      (* c.req.method *)
  req_header : string -> option string      (* c.req.header(name) *)
}.

(** What a middleware returns: the result of [next()], that is the
    downstream handlers on the untouched context, or a response of its
    own built by [c.body(data, status)]. *)
Inductive Outcome : Type :=
| next
| body (data : option string) (status : Z).

Definition console_log (l : LogLine) : M unit :=
  fun w => (tt, mkWorld (lastIndex w) (console w ++ [l]) (tests w)).

(** [xs.some(f)]: [f] is called on the elements in order until it answers
    [true]. *)
Fixpoint some {A : Type} (f : A -> M bool) (xs : list A) : M bool :=
  match xs with
  | [] => ret false
  | x :: xs' => (b <- f x ;; if b then ret true else some f xs')%js
  end.

(** [a || b] on values that are a string or [undefined]: the empty string
    and [undefined] are falsy. *)
Definition truthy (v : option string) : bool :=
  match v with
  | Some s => negb (s =? "")%string
  | None => false
  end.

Definition or_else (a b : option string) : option string :=
  if truthy a then a else b.

Infix "||'" := or_else (at level 50, left associativity).

(** ** The middleware *)

Record HoneypotOptions : Type := mkOptions {
  opt_patterns : option (list RegExp);      (* patterns? *)
  opt_exclude : option (list RegExp);       (* exclude? *)
  opt_log : option bool;                    (* log? *)
  opt_status : option StatusCode            (* status? *)
}.

(** [honeypot()] and [honeypot({})] *)
Definition no_options : HoneypotOptions := mkOptions None None None None.

(** [xs || []] *)
Definition or_empty (xs : option (list RegExp)) : list RegExp :=
  match xs with Some l => l | None => [] end.

(** The three snapshots of the file share the text of [honeypot]; they
    differ in the table [ATTACK_PATTERNS] and in what the handler binds
    [path] to: [c.req.path] itself, or [c.req.path] with its runs of
    slashes replaced. *)
Section Honeypot.

Variable ATTACK_PATTERNS : list RegExp.
Variable path_of : string -> string.

(** [patterns] after the filter, as the handler closes over it. *)
Definition patterns (options : HoneypotOptions) : list RegExp :=
  let patterns := ATTACK_PATTERNS ++ or_empty (opt_patterns options) in
  match opt_exclude options with
  | Some ((_ :: _) as exclude) =>
      filter
        (fun pattern =>
           negb (existsb
                   (fun excludePattern =>
                      (source pattern =? source excludePattern)%string)
                   exclude))
        patterns
  | _ => patterns
  end.

Definition shouldLog (options : HoneypotOptions) : bool :=
  match opt_log options with Some b => b | None => true end.

Definition status (options : HoneypotOptions) : StatusCode :=
  match opt_status options with Some s => s | None => Gone end.

(** The client address of the log line. *)
Definition client_ip (c : Context) : string :=
  match
    req_header c "cf-connecting-ip" ||'
    option_map Str.trim
      (match req_header c "x-forwarded-for" with
       | Some v => nth_error (Str.split "," v) 0
       | None => None
       end) ||'
    req_header c "x-real-ip" ||'
    Some "unknown"%string
  with
  | Some ip => ip
  | None => "undefined"%string
  end.

Definition honeypot (options : HoneypotOptions) (c : Context) : M Outcome :=
  let path := path_of (req_path c) in
  (blocked <- some (fun pattern => RegExpObject.test pattern path)
                   (patterns options) ;;
   if blocked then
     (if shouldLog options
      then console_log (mkLogLine (client_ip c) (req_method c) path)
      else ret tt) ;;;
     ret (body None (code (status options)))
   else ret next)%js.

End Honeypot.

(** A regex literal, waiting for the identity of the object it evaluates to. *)
Definition R (source flags : string) : nat -> RegExp := mkRegExp source flags.

Fixpoint objects (base : nat) (literals : list (nat -> RegExp)) : list RegExp :=
  match literals with
  | [] => []
  | l :: ls => l base :: objects (S base) ls
  end.

(** *** src/index.ts *)

Module Index.

Definition ATTACK_PATTERNS : list RegExp :=
  objects 0 [
    (* PHP *)
    R "\.php$" "i";
    R "\/config\.php" "i";
    R "\/phpinfo" "i";
    R "\/eval-stdin\.php" "i";
    R "\/xmlrpc\.php" "i";
    (* WordPress *)
    R "^\/wp$" "i";
    R "^\/wp-" "i";
    R "^\/wordpress" "i";
    (* Admin panels *)
    R "^\/admin(\.php)?$" "i";
    R "^\/administrator" "i";
    R "^\/phpmyadmin" "i";
    R "^\/cpanel" "i";
    R "^\/whm" "i";
    R "^\/cgi-bin" "i";
    (* CMS frameworks *)
    R "^\/typo3" "i";
    R "^\/joomla" "i";
    R "^\/drupal" "i";
    R "^\/magento" "i";
    (* Sensitive files *)
    R "\/\.env" "i";
    R "\/\.git" "i";
    R "\/\.sql$" "i";
    R "\/\.well-known\/security\.txt" "i";
    R "\/(vendor|node_modules)\/" "i";
    (* Backup patterns *)
    R "^\/backup" "i";
    R "^\/bk$" "i";
    R "^\/bak$" "i";
    R "^\/bac$" "i";
    R "^\/dump" "i";
    (* Database *)
    R "^\/db_" "i";
    R "^\/sql" "i";
    (* Shell/exploits *)
    R "^\/shell" "i";
    (* Auth routes *)
    R "^\/login$" "i";
    R "^\/signin$" "i";
    R "^\/register$" "i";
    R "^\/signup$" "i";
    R "^\/dashboard$" "i";
    R "^\/user\/(login|signin|register|signup)" "i";
    (* Discovery patterns *)
    R "^\/old$" "i";
    R "^\/new$" "i";
    R "^\/test$" "i";
    R "^\/demo$" "i";
    R "^\/www$" "i";
    R "^\/main$" "i";
    R "^\/site$" "i";
    R "^\/shop$" "i";
    R "^\/blog$" "i";
    R "^\/bc$" "i";
    R "^\/sitio$" "i";
    R "^\/sito$" "i";
    R "^\/oldsite$" "i";
    R "^\/old-site$" "i";
    R "^\/\d{4}$" "i"
  ]%string.

Definition honeypot : HoneypotOptions -> Context -> M Outcome :=
  honeypot ATTACK_PATTERNS (fun path => path).

End Index.

(** *** The second snapshot of index.ts: a longer table *)

Module Part002.

Definition ATTACK_PATTERNS : list RegExp :=
  objects 0 [
    (* PHP patterns *)
    R "\.php$" "i";
    R "\/config\.php" "i";
    R "\/phpinfo" "i";
    R "\/eval-stdin\.php" "i";
    R "\/xmlrpc\.php" "i";
    (* WordPress (anchored to root level to avoid catching /api/wordpress-integration) *)
    R "^\/wp$" "i";
    R "^\/wp-" "i";
    R "^\/wordpress" "i";
    (* Admin panels (exact matches) *)
    R "^\/admin(\.php)?$" "i";
    R "^\/administrator" "i";
    R "^\/phpmyadmin" "i";
    R "^\/cpanel" "i";
    R "^\/whm" "i";
    R "^\/cgi-bin" "i";
    (* CMS frameworks (anchored to root) *)
    R "^\/typo3" "i";
    R "^\/joomla" "i";
    R "^\/drupal" "i";
    R "^\/magento" "i";
    (* Config/sensitive files (anywhere in path is suspicious) *)
    R "\/\.env" "i";
    R "\/\.git" "i";
    R "\/\.sql$" "i";
    R "\/\.well-known\/security\.txt" "i";
    R "\/(vendor|node_modules)\/" "i";
    (* Backup files (.bak, .old, .backup, .orig) *)
    R "\.(bak|old|backup|orig|save|swp)$" "i";
    (* Config files at root (NOT /api/ /config.json, only root-level) *)
    R "^\/config\.(js|json|yml|yaml|xml|ini|conf)$" "i";
    R "^\/settings\.(js|json|yml|yaml|xml)$" "i";
    R "^\/credentials\.(js|json|yml|yaml)$" "i";
    R "^\/secrets\.(js|json|yml|yaml|env)$" "i";
    R "^\/appsettings\.(json|yml|yaml)$" "i";
    R "^\/application\.(yml|yaml|xml|properties)$" "i";
    (* JS files at public root *)
    R "^\/env\.js$" "i";
    (* Server info/status routes *)
    R "^\/server-(status|info)$" "i";
    R "^\/info$" "i";
    (* Swagger/OpenAPI at root (NOT /api/openapi.json) *)
    R "^\/swagger\.(json|yml|yaml)$" "i";
    R "^\/api\/swagger\.(json|yml|yaml)$" "i";
    (* Environment leak attempts *)
    R "^\/_env" "i";
    R "^\/config\/" "i";
    (* Backup patterns (anchored to root to avoid /api/backup-service) *)
    R "^\/backup" "i";
    R "^\/bk$" "i";
    R "^\/bak$" "i";
    R "^\/bac$" "i";
    R "^\/dump" "i";
    (* Database patterns (anchored to root) *)
    R "^\/db_" "i";
    R "^\/sql" "i";
    (* Shell/exploit patterns (anchored to root) *)
    R "^\/shell" "i";
    (* Auth routes (exact matches only) *)
    R "^\/login$" "i";
    R "^\/signin$" "i";
    R "^\/register$" "i";
    R "^\/signup$" "i";
    R "^\/dashboard$" "i";
    R "^\/user\/(login|signin|register|signup)" "i";
    (* Brute force discovery patterns (exact matches - year folders like /2017, common test paths) *)
    R "^\/old$" "i";
    R "^\/new$" "i";
    R "^\/test$" "i";
    R "^\/demo$" "i";
    R "^\/www$" "i";
    R "^\/main$" "i";
    R "^\/site$" "i";
    R "^\/shop$" "i";
    R "^\/blog$" "i";
    R "^\/bc$" "i";
    R "^\/sitio$" "i";
    R "^\/sito$" "i";
    R "^\/oldsite$" "i";
    R "^\/old-site$" "i";
    R "^\/\d{4}$" "i"
  ]%string.

Definition honeypot : HoneypotOptions -> Context -> M Outcome :=
  honeypot ATTACK_PATTERNS (fun path => path).

End Part002.

(** *** The third snapshot of index.ts: a longer table still, and the
    handler collapses the slashes of the path *)

Module Part003.

Definition ATTACK_PATTERNS : list RegExp :=
  objects 0 [
    (* PHP patterns *)
    R "\.php$" "i";
    R "\/config\.php" "i";
    R "\/phpinfo" "i";
    R "\/eval-stdin\.php" "i";
    R "\/xmlrpc\.php" "i";
    (* Shell/backdoor patterns (anywhere in path) *)
    R "\/ALFA_DATA" "i";
    R "\/c99\.php" "i";
    R "\/r57\.php" "i";
    R "\/shell\.php" "i";
    R "\/webshell" "i";
    (* WordPress (anchored to root level to avoid catching /api/wordpress-integration) *)
    R "^\/wp$" "i";
    R "^\/wp-" "i";
    R "^\/wordpress" "i";
    (* WordPress internals (anywhere in path - these are ALWAYS attack probes) *)
    R "\/wp-includes\/" "i";
    R "\/wp-content\/" "i";
    R "\/wp-admin" "i";
    R "wlwmanifest\.xml$" "i";
    (* Generic upload/file directories (root level) *)
    R "^\/uploads?$" "i";
    R "^\/images$" "i";
    R "^\/assets$" "i";
    R "^\/files$" "i";
    R "^\/media$" "i";
    R "^\/public$" "i";
    (* Admin subdirectories (common exploit paths) *)
    R "\/admin\/(uploads?|images|editor|fckeditor|controller)" "i";
    (* CMS/framework directories (root level) *)
    R "^\/modules$" "i";
    R "^\/plugins$" "i";
    R "^\/components$" "i";
    R "^\/system$" "i";
    R "^\/template$" "i";
    R "^\/includes?$" "i";
    R "^\/vendor$" "i";
    R "^\/local$" "i";
    R "^\/php$" "i";
    (* CMS-specific exploit paths (anywhere in path) *)
    R "\/fckeditor\/editor\/filemanager" "i";
    R "\/sites\/default\/files" "i";
    R "\/images\/stories" "i";
    R "\/modules\/mod_simplefileupload" "i";
    R "\/controller\/extension" "i";
    (* Admin panels (exact matches) *)
    R "^\/admin(\.php)?$" "i";
    R "^\/administrator" "i";
    R "^\/phpmyadmin" "i";
    R "^\/cpanel" "i";
    R "^\/whm" "i";
    R "^\/cgi-bin" "i";
    (* CMS frameworks (anchored to root) *)
    R "^\/typo3" "i";
    R "^\/joomla" "i";
    R "^\/drupal" "i";
    R "^\/magento" "i";
    (* Config/sensitive files (anywhere in path is suspicious) *)
    R "\/\.env" "i";
    R "\/\.git" "i";
    R "\/\.sql$" "i";
    R "\/\.well-known\/security\.txt" "i";
    R "\/(vendor|node_modules)\/" "i";
    (* Backup files (.bak, .old, .backup, .orig) *)
    R "\.(bak|old|backup|orig|save|swp)$" "i";
    (* Config files at root (NOT /api/ /config.json, only root-level) *)
    R "^\/config\.(js|json|yml|yaml|xml|ini|conf)$" "i";
    R "^\/settings\.(js|json|yml|yaml|xml)$" "i";
    R "^\/credentials\.(js|json|yml|yaml)$" "i";
    R "^\/secrets\.(js|json|yml|yaml|env)$" "i";
    R "^\/appsettings\.(json|yml|yaml)$" "i";
    R "^\/application\.(yml|yaml|xml|properties)$" "i";
    (* JS files at root that leak environment info *)
    R "^\/env\.js$" "i";
    (* Server info/status routes *)
    R "^\/server-(status|info)$" "i";
    R "^\/info$" "i";
    (* Swagger/OpenAPI at root (NOT /api/openapi.json) *)
    R "^\/swagger\.(json|yml|yaml)$" "i";
    R "^\/api\/swagger\.(json|yml|yaml)$" "i";
    (* Environment leak attempts *)
    R "^\/_env" "i";
    R "^\/config\/" "i";
    (* Backup patterns (anchored to root to avoid /api/backup-service) *)
    R "^\/backup" "i";
    R "^\/bk$" "i";
    R "^\/bak$" "i";
    R "^\/bac$" "i";
    R "^\/dump" "i";
    (* Database patterns (anchored to root) *)
    R "^\/db_" "i";
    R "^\/sql" "i";
    (* Shell/exploit patterns (anchored to root) *)
    R "^\/shell" "i";
    (* Auth routes (exact matches only) *)
    R "^\/login$" "i";
    R "^\/signin$" "i";
    R "^\/register$" "i";
    R "^\/signup$" "i";
    R "^\/dashboard$" "i";
    R "^\/user\/(login|signin|register|signup)" "i";
    (* Brute force discovery patterns (exact matches - year folders like /2017, common test paths) *)
    R "^\/old$" "i";
    R "^\/new$" "i";
    R "^\/test$" "i";
    R "^\/demo$" "i";
    R "^\/www$" "i";
    R "^\/main$" "i";
    R "^\/site$" "i";
    R "^\/shop$" "i";
    R "^\/blog$" "i";
    R "^\/bc$" "i";
    R "^\/sitio$" "i";
    R "^\/sito$" "i";
    R "^\/oldsite$" "i";
    R "^\/old-site$" "i";
    R "^\/\d{4}$" "i"
  ]%string.

(** [rawPath.replace(/\/+/g, '/')]: the literal is a fresh object at every
    call, and [replace] starts a global pattern at index 0. *)
Definition normalize (rawPath : string) : string :=
  RegExpObject.replace_global (R "\/+" "g" 0) "/" rawPath.

Definition honeypot : HoneypotOptions -> Context -> M Outcome :=
  honeypot ATTACK_PATTERNS normalize.

End Part003.

(** * The vocabulary of the statements *)

Import RegExpObject.

(** The caller's additions and exclusions, an absent option read as none. *)
Definition additions (options : HoneypotOptions) : list RegExp :=
  or_empty (opt_patterns options).

Definition exclusions (options : HoneypotOptions) : list RegExp :=
  or_empty (opt_exclude options).

(** [r] has the source text of no exclusion. *)
Definition survives (options : HoneypotOptions) (r : RegExp) : bool :=
  negb (existsb (fun e => (source r =? source e)%string) (exclusions options)).

(** How many signatures of [l] are tested on [path] when the tests stop at
    the first match. *)
Fixpoint evaluated (path : string) (l : list RegExp) : nat :=
  match l with
  | [] => 0
  | r :: l' => S (if matches r path then 0 else evaluated path l')
  end.

(** The world after [n] more tests and the log lines [ls]. *)
Definition after (w : World) (n : nat) (ls : list LogLine) : World :=
  mkWorld (lastIndex w) (console w ++ ls) (tests w + n).

(** A string with every letter changed in place to its upper case, to
    its lower case, where that is one code unit of the model.  [downcase]
    is what [toLowerCase] computes; [upcase] is not [toUpperCase], which
    writes the sharp s as two letters: see [Str.toUpperCase]. *)
Fixpoint upcase (s : string) : string :=
  match s with
  | EmptyString => EmptyString
  | String c s' => String (Str.upper c) (upcase s')
  end.

Fixpoint downcase (s : string) : string :=
  match s with
  | EmptyString => EmptyString
  | String c s' => String (Str.lower c) (downcase s')
  end.

(** Two strings of one length that differ at most in the case of letters
    changed in place: the strings that the [i] flag cannot tell apart. *)
Definition same_up_to_case (p q : string) : Prop := upcase p = upcase q.

(** Two code units that are one letter in two cases, or the same unit. *)
Definition fold_eq (a b : ascii) : Prop := Str.upper a = Str.upper b.

Definition is_slash (c : ascii) : bool := Ascii.eqb c "/".

Definition starts_with_slash (l : list ascii) : bool :=
  match l with c :: _ => is_slash c | [] => false end.

(** Every run of consecutive slashes becomes one slash: a slash that a
    slash follows is dropped. *)
Fixpoint collapse_chars (l : list ascii) : list ascii :=
  match l with
  | [] => []
  | c :: l' =>
      if is_slash c && starts_with_slash l' then collapse_chars l'
      else c :: collapse_chars l'
  end.

Definition collapse_slashes (s : string) : string :=
  Str.of_chars (collapse_chars (Str.chars s)).

(** The length of the run of slashes [l] starts with, and of the run of
    other code units. *)
Fixpoint run (l : list ascii) : nat :=
  match l with
  | c :: l' => if is_slash c then S (run l') else 0
  | [] => 0
  end.

Fixpoint until_slash (l : list ascii) : nat :=
  match l with
  | c :: l' => if is_slash c then 0 else S (until_slash l')
  | [] => 0
  end.

Definition slashes : Regex.regex :=
  Regex.Seq (Regex.Repeat (Regex.Chr "/") 1 None) Regex.Empty.

(** The line the handler logs for [c]. *)
Definition log_line (path_of : string -> string) (c : Context) : LogLine :=
  mkLogLine (client_ip c) (req_method c) (path_of (req_path c)).

(** The decision the rule engine owes a request on [path] under the rule
    list [rules]: [next()] exactly when no rule matches, the empty response
    with the configured status exactly when one does, and no rule behind
    the first match is tested.  [res] is what the handler returned and the
    world it left, [w] the world it started in. *)
Definition first_match_decision (rules : list RegExp) (path : string)
  (st : StatusCode) (w : World) (res : Outcome * World) : Prop :=
  (fst res = next <-> forall r, In r rules -> matches r path = false) /\
  (fst res = body None (code st) <->
   exists r, In r rules /\ matches r path = true) /\
  (forall pre r post,
     rules = pre ++ r :: post ->
     (forall q, In q pre -> matches q path = false) ->
     matches r path = true ->
     tests (snd res) = tests w + List.length pre + 1) /\
  ((forall r, In r rules -> matches r path = false) ->
   tests (snd res) = tests w + List.length rules).

(** The text of [v] before its first comma. *)
Fixpoint before_comma (v : string) : string :=
  match v with
  | EmptyString => EmptyString
  | String c v' => if Ascii.eqb c "," then EmptyString else String c (before_comma v')
  end.

(** The first of the candidates that is there and not empty. *)
Fixpoint first_usable (candidates : list (option string)) (sentinel : string)
  : string :=
  match candidates with
  | [] => sentinel
  | Some v :: rest => if (v =? "")%string then first_usable rest sentinel else v
  | None :: rest => first_usable rest sentinel
  end.

(** The client identifier as the headers give it: the edge provider's
    header, the first value of the forwarded-for list without the blanks
    around it, the real-ip header, ["unknown"]. *)
Definition client_identifier (header : string -> option string) : string :=
  first_usable
    [ header "cf-connecting-ip"%string;
      option_map (fun v => Str.trim (before_comma v))
                 (header "x-forwarded-for"%string);
      header "x-real-ip"%string ]
    "unknown".

(** Under the default configuration the middleware [mw] answers [o] to
    every request for [path], whatever its method, its headers and the
    world. *)
Definition decides (mw : HoneypotOptions -> Context -> M Outcome)
  (path : string) (o : Outcome) : Prop :=
  forall mth h w, fst (mw no_options (mkContext path mth h) w) = o.

(** A table of stateless signatures that all carry the [i] flag. *)
Definition builtin_table (t : list RegExp) : bool :=
  forallb (fun r => ignoreCase r && negb (stateful r)) t.

(** A request without headers. *)
Definition get (path : string) : Context :=
  mkContext path "GET" (fun _ => None).

(** ** Signatures, configurations and worlds of the examples *)

(** A global addition, and the configuration that adds it. *)
Definition secret_g : RegExp := mkRegExp "^\/secret" "g" 1000.

Definition options_secret_g : HoneypotOptions :=
  mkOptions (Some [secret_g]) None (Some false) None.

(** The exclusion [/^\/(blog)$/i]: another text for the signature
    [/^\/blog$/i]. *)
Definition blog_in_a_group : RegExp := mkRegExp "^\/(blog)$" "i" 2000.

(** The signature [/^\/blog$/i] of src/index.ts. *)
Definition blog : RegExp := mkRegExp "^\/blog$" "i" 45.

(** A configuration that adds [/^\/secret/i] and excludes [/^\/secret/]. *)
Definition secret : RegExp := mkRegExp "^\/secret" "i" 1001.

Definition options_secret_excluded : HoneypotOptions :=
  mkOptions (Some [secret]) (Some [mkRegExp "^\/secret" "" 1002])
            (Some false) None.

(** The signature [/^\/blog$/] without flags. *)
Definition blog_case_sensitive : RegExp := mkRegExp "^\/blog$" "" 2001.

(** The year-folder signature [/^\/\d{4}$/i] of src/index.ts. *)
Definition year_folder : RegExp := mkRegExp "^\/\d{4}$" "i" 51.

(** The decisions of the anchoring tests. *)
Definition regression_set (mw : HoneypotOptions -> Context -> M Outcome)
  : Prop :=
  decides mw "/admin" (body None 410) /\
  decides mw "/api/admin" next /\
  decides mw "/blog" (body None 410) /\
  decides mw "/blogs" next /\
  decides mw "/wp-admin" (body None 410) /\
  decides mw "/foo/wp-admin/index.php" (body None 410) /\
  decides mw "/2017" (body None 410) /\
  decides mw "/2024" (body None 410) /\
  decides mw "/abcd" next /\
  decides mw "/12345" next.

(** A configuration that excludes the year-folder signature. *)
Definition options_without_years : HoneypotOptions :=
  mkOptions None (Some [year_folder]) (Some false) None.

Definition is_some {A} (o : option A) : bool :=
  match o with Some _ => true | None => false end.

(** A world in which the [lastIndex] slots, the console and the counter
    are not the initial ones. *)
Definition world_later : World :=
  mkWorld (fun l => l + 3) [mkLogLine "unknown" "GET" "/wp-admin"] 17.

(** A middleware that, under the default configuration, answers two
    paths alike when they differ in the case of their letters only. *)
Definition case_blind (mw : HoneypotOptions -> Context -> M Outcome) : Prop :=
  forall p q mth h w,
    same_up_to_case p q ->
    fst (mw no_options (mkContext p mth h) w)
    = fst (mw no_options (mkContext q mth h) w).

(** [honeypot({ log: false })] *)
Definition quiet : HoneypotOptions := mkOptions None None (Some false) None.

(** The answer of [mw] to [GET path] without headers, in the initial
    world: [next] where the tests expect the 200 of the route behind. *)
Definition answer (mw : HoneypotOptions -> Context -> M Outcome)
  (options : HoneypotOptions) (path : string) : Outcome :=
  fst (mw options (get path) world0).

(** The expectations of the first test file that use [{ log: false }]. *)
Definition expectations_part_001 : list (string * Outcome) :=
  [ ("/wp-admin", body None 410); ("/config.php", body None 410);
    ("/admin", body None 410); ("/api/admin", next);
    ("/blogs", next); ("/blog", body None 410);
    ("/2017", body None 410); ("/2024", body None 410);
    ("/abcd", next); ("/12345", next) ]%string.

(** The expectations the later test file adds to them. *)
Definition expectations_part_000 : list (string * Outcome) :=
  expectations_part_001 ++
  [ ("/config.json", body None 410); ("/settings.yml", body None 410);
    ("/secrets.env", body None 410); ("/appsettings.json", body None 410);
    ("/api/config.json", next);
    ("/index.php.bak", body None 410); ("/database.sql.old", body None 410);
    ("/config.backup", body None 410); ("/app.js.orig", body None 410);
    ("/file.swp", body None 410);
    ("/env.js", body None 410); ("/_env", body None 410);
    ("/config/secrets.env", body None 410);
    ("/server-status", body None 410); ("/server-info", body None 410);
    ("/info", body None 410);
    ("/swagger.json", body None 410); ("/swagger.yml", body None 410);
    ("/api/swagger.json", body None 410); ("/api/docs/swagger", next);
    ("/wp-includes/js/jquery.js", body None 410);
    ("/wp-content/uploads/image.png", body None 410);
    ("/foo/wp-admin/index.php", body None 410);
    ("/wlwmanifest.xml", body None 410);
    ("/main.js", next);
    ("//blog", body None 410); ("///admin", body None 410);
    ("/wp-admin//index.php", body None 410);
    ("/ALFA_DATA", body None 410); ("/c99.php", body None 410);
    ("/shell.php", body None 410); ("/uploads", body None 410);
    ("/upload", body None 410); ("/images", body None 410);
    ("/assets", body None 410); ("/files", body None 410);
    ("/api/uploads", next); ("/api/images", next);
    ("/admin/uploads", body None 410); ("/admin/images", body None 410);
    ("/admin/editor", body None 410); ("/admin/fckeditor", body None 410);
    ("/admin/controller", body None 410);
    ("/admin/fckeditor/editor/filemanager", body None 410);
    ("/sites/default/files", body None 410);
    ("/images/stories", body None 410);
    ("/modules/mod_simplefileupload/elements", body None 410);
    ("/admin/controller/extension/extension", body None 410);
    ("/modules", body None 410); ("/plugins", body None 410);
    ("/components", body None 410); ("/system", body None 410);
    ("/template", body None 410); ("/include", body None 410);
    ("/vendor", body None 410); ("/local", body None 410);
    ("/php", body None 410); ("/public", body None 410);
    ("/api/modules", next) ]%string.

(** [mw] meets the expectations [l]. *)
Definition meets (mw : HoneypotOptions -> Context -> M Outcome)
  (l : list (string * Outcome)) : Prop :=
  map (fun e => answer mw quiet (fst e)) l = map snd l.

(** The configurations of the three tests with options of their own. *)
Definition options_custom_pattern : HoneypotOptions :=
  mkOptions (Some [secret]) None (Some false) None.

Definition options_status_403 : HoneypotOptions :=
  mkOptions None None (Some false) (Some Forbidden).

Definition options_exclude_admin : HoneypotOptions :=
  mkOptions None (Some [mkRegExp "^\/admin(\.php)?$" "i" 1003])
            (Some false) None.

(** Every source of the table is in the fragment of the parser. *)
Definition parses (t : list RegExp) : bool :=
  forallb (fun r => is_some (Regex.parse (source r))) t.

(** ** The signatures the engine covers *)

(** The flags of a RegExp without the unicode modes [u] and [v]. *)
Definition legacy_flags (r : RegExp) : bool :=
  forallb (fun f => existsb (Ascii.eqb f) (Str.chars "dgimsy"))
          (Str.chars (flags r)).

(** A RegExp of the engine above: its source is in the grammar of
    [Regex.parse] and it has neither unicode mode. *)
Definition in_fragment (r : RegExp) : bool :=
  is_some (Regex.parse (source r)) && legacy_flags r.

Definition modelled (rules : list RegExp) : bool := forallb in_fragment rules.

(** ** Letter case as the string methods change it *)

(** U+00DF, the sharp s. *)
Definition sharp_s : ascii := ascii_of_nat 223.

(** The path [/wordpre] followed by a sharp s. *)
Definition wordpress_sharp_s : string := "/wordpre" ++ String sharp_s "".

(** Two paths that the middleware [mw] answers alike under the default
    configuration, whatever the method, the headers and the world. *)
Definition same_decision (mw : HoneypotOptions -> Context -> M Outcome)
  (p q : string) : Prop :=
  forall mth h w,
    fst (mw no_options (mkContext p mth h) w)
    = fst (mw no_options (mkContext q mth h) w).

(** ** The normalised path *)

(** No slash of [l] is followed by a slash. *)
Fixpoint no_slash_run (l : list ascii) : bool :=
  match l with
  | [] => true
  | c :: l' => negb (is_slash c && starts_with_slash l') && no_slash_run l'
  end.

(** The code units of [l] that are not slashes, in their order. *)
Definition without_slashes (l : list ascii) : list ascii :=
  filter (fun c => negb (is_slash c)) l.

(** ** Configurations built from others *)

(** [options] with [more] appended to its additions. *)
Definition with_more_patterns (options : HoneypotOptions) (more : list RegExp)
  : HoneypotOptions :=
  mkOptions (Some (additions options ++ more)) (opt_exclude options)
            (opt_log options) (opt_status options).


(** The response of a blocked request. *)
Definition blocked (options : HoneypotOptions) : Outcome :=
  body None (code (status options)).

(** [r] finds a match in [path] from some start index. *)
Definition finds (r : RegExp) (path : string) : Prop :=
  exists p start e,
    Regex.parse (source r) = Some p /\
    start <= String.length path /\
    Regex.m (ignoreCase r) (multiline r) (dotAll r) (Str.chars path) p Some start
    = Some e.

(** ** Tables and request sequences *)

(** Every signature of [t1] is in [t2], by source text and flags. *)
Definition table_included (t1 t2 : list RegExp) : bool :=
  forallb
    (fun r1 =>
       existsb
         (fun r2 =>
            (source r1 =? source r2)%string && (flags r1 =? flags r2)%string)
         t2)
    t1.

(** No text of [l] occurs twice. *)
Fixpoint distinct (l : list string) : bool :=
  match l with
  | [] => true
  | s :: l' => negb (existsb (String.eqb s) l') && distinct l'
  end.



(** ** The shape of a signature *)

(** How a signature made of pattern characters is anchored. *)
Inductive Anchoring : Type := Exact | Prefix | Suffix | Anywhere.

(** The pattern characters of a pattern without groups, alternatives,
    classes and quantifiers, and whether [$] ends it. *)
Fixpoint literal_of (r : Regex.regex) : option (list ascii * bool) :=
  match r with
  | Regex.Empty => Some ([], false)
  | Regex.Seq Regex.LineEnd Regex.Empty => Some ([], true)
  | Regex.Seq (Regex.Chr c) r' =>
      match literal_of r' with
      | Some (w, e) => Some (c :: w, e)
      | None => None
      end
  | _ => None
  end.

(** [^word$], [^word], [word$] and [word]. *)
Definition anchoring (p : Regex.regex) : option (Anchoring * list ascii) :=
  match p with
  | Regex.Seq Regex.LineStart p' =>
      match literal_of p' with
      | Some (w, true) => Some (Exact, w)
      | Some (w, false) => Some (Prefix, w)
      | None => None
      end
  | _ =>
      match literal_of p with
      | Some (w, true) => Some (Suffix, w)
      | Some (w, false) => Some (Anywhere, w)
      | None => None
      end
  end.

(** [path] has the word [w], in any letter case: as a whole, at its start,
    at its end, or anywhere. *)
Definition has_word (a : Anchoring) (w : list ascii) (path : string) : Prop :=
  exists pre x post,
    Str.chars path = pre ++ x ++ post /\
    Forall2 fold_eq x w /\
    match a with
    | Exact => pre = [] /\ post = []
    | Prefix => pre = []
    | Suffix => post = []
    | Anywhere => True
    end.

(** The pattern of the characters [w], ended by [$] or not. *)
Fixpoint word_pattern (w : list ascii) (e : bool) : Regex.regex :=
  match w with
  | [] => if e then Regex.Seq Regex.LineEnd Regex.Empty else Regex.Empty
  | c :: w' => Regex.Seq (Regex.Chr c) (word_pattern w' e)
  end.

(** The input has [w] at index [i], in any letter case. *)
Fixpoint has_at (input : list ascii) (i : nat) (w : list ascii) : bool :=
  match w with
  | [] => true
  | c :: w' =>
      match nth_error input i with
      | Some d => Ascii.eqb (Str.upper d) (Str.upper c) && has_at input (S i) w'
      | None => false
      end
  end.

(** How many signatures of a table [anchoring] classifies. *)
Definition classified (t : list RegExp) : nat :=
  List.length
    (filter
       (fun r =>
          match Regex.parse (source r) with
          | Some p => is_some (anchoring p)
          | None => false
          end)
       t).

(** ** Worlds at rest *)

(** Every global or sticky signature of [rules] has its [lastIndex]
    at 0. *)
Definition rested (rules : list RegExp) (w : World) : Prop :=
  forall r, In r rules -> stateful r = true -> lastIndex w (ref r) = 0.

(** * Properties *)

(** ** The runtime *)

Lemma after_0 w : after w 0 [] = w.
Proof.
  destruct w as [li co te]; unfold after; simpl.
  now rewrite app_nil_r, Nat.add_0_r.
Qed.

Lemma test_stateless r str w :
  stateful r = false ->
  test r str w = (matches r str, after w 1 []).
Proof.
  intros Hs. unfold test, matches, bind, tick, ret, after; simpl.
  rewrite app_nil_r, Nat.add_1_r.
  destruct (Regex.parse (source r)); [rewrite Hs|]; reflexivity.
Qed.

Lemma test_console r str w : console (snd (test r str w)) = console w.
Proof.
  unfold test, bind, tick, ret, set_lastIndex; simpl.
  destruct (Regex.parse (source r)); [|reflexivity].
  destruct (stateful r); [|reflexivity].
  now destruct (exec_from _ _ _ _) as [[? ?]|].
Qed.

Lemma some_test_console path l w :
  console (snd (some (fun p => test p path) l w)) = console w.
Proof.
  revert w; induction l as [|r l IH]; intros w; simpl; [reflexivity|].
  unfold bind. pose proof (test_console r path w) as Hc.
  destruct (test r path w) as [b w1]; simpl in Hc.
  destruct b; simpl; [assumption|]. now rewrite IH.
Qed.

Lemma some_stateless path l w :
  (forall r, In r l -> stateful r = false) ->
  some (fun p => test p path) l w
  = (existsb (fun r => matches r path) l, after w (evaluated path l) []).
Proof.
  revert w; induction l as [|r l IH]; intros w Hl; simpl.
  - unfold ret. now rewrite after_0.
  - unfold bind. rewrite test_stateless by (apply Hl; now left).
    destruct (matches r path); simpl.
    + reflexivity.
    + rewrite IH by (intros; apply Hl; now right).
      unfold after; simpl. rewrite !app_nil_r. do 2 f_equal. lia.
Qed.

(** A stateless signature that matches blocks whatever stands behind it,
    as long as those before it are stateless too. *)
Lemma some_reaches path pre r post w :
  (forall q, In q pre -> stateful q = false) ->
  stateful r = false ->
  matches r path = true ->
  fst (some (fun p => test p path) (pre ++ r :: post) w) = true.
Proof.
  revert w; induction pre as [|q pre IH]; intros w Hpre Hr Hm; simpl; unfold bind.
  - rewrite test_stateless by assumption. now rewrite Hm.
  - rewrite test_stateless by (apply Hpre; now left).
    destruct (matches q path); [reflexivity|].
    apply IH; auto. intros; apply Hpre; now right.
Qed.

Lemma evaluated_first_match path pre r post :
  (forall q, In q pre -> matches q path = false) ->
  matches r path = true ->
  evaluated path (pre ++ r :: post) = List.length pre + 1.
Proof.
  induction pre as [|q pre IH]; intros Hpre Hr; simpl.
  - now rewrite Hr.
  - rewrite (Hpre q) by now left. rewrite IH; auto.
    intros; apply Hpre; now right.
Qed.

Lemma evaluated_no_match path l :
  (forall q, In q l -> matches q path = false) ->
  evaluated path l = List.length l.
Proof.
  induction l as [|q l IH]; intros Hl; simpl; [reflexivity|].
  rewrite (Hl q) by now left. rewrite IH; auto.
  intros; apply Hl; now right.
Qed.

(** ** The composition of the rule list *)

Section Composer.

Variable ATTACK_PATTERNS : list RegExp.

(** The filter runs over the concatenation, so over the additions too;
    without exclusions every signature survives. *)
Lemma patterns_filter options :
  patterns ATTACK_PATTERNS options
  = filter (survives options) (ATTACK_PATTERNS ++ additions options).
Proof.
  unfold patterns, survives, exclusions, additions.
  destruct (opt_exclude options) as [[|e es]|]; try reflexivity;
    symmetry; apply forallb_filter_id, forallb_forall; reflexivity.
Qed.

Lemma in_patterns options r :
  In r (patterns ATTACK_PATTERNS options) <->
  In r (ATTACK_PATTERNS ++ additions options) /\ survives options r = true.
Proof. rewrite patterns_filter. apply filter_In. Qed.

Lemma survives_iff options r :
  survives options r = true <->
  forall e, In e (exclusions options) -> source e <> source r.
Proof.
  unfold survives. rewrite negb_true_iff. split.
  - intros Hn e He Heq.
    assert (Ht : existsb (fun e => (source r =? source e)%string)
                   (exclusions options) = true).
    { apply existsb_exists. exists e. split; [assumption|].
      apply String.eqb_eq. now symmetry. }
    congruence.
  - intros Hall.
    destruct (existsb _ (exclusions options)) eqn:Hex; [|reflexivity].
    apply existsb_exists in Hex. destruct Hex as [e [He Heq]].
    apply String.eqb_eq in Heq. exfalso. apply (Hall e He). now symmetry.
Qed.

Lemma removed_iff options r :
  survives options r = false <->
  exists e, In e (exclusions options) /\ source e = source r.
Proof.
  unfold survives. rewrite negb_false_iff, existsb_exists.
  split; intros [e [He Heq]]; exists e; split; try assumption.
  - apply String.eqb_eq in Heq. now symmetry.
  - apply String.eqb_eq. now symmetry.
Qed.

End Composer.

(** ** The handler *)

Section Handler.

Variable ATTACK_PATTERNS : list RegExp.
Variable path_of : string -> string.

Let handler := honeypot ATTACK_PATTERNS path_of.
Let rules := patterns ATTACK_PATTERNS.

(** The handler has two exits: [next()] with the console as it was, and
    the empty response with the console one line longer when logging
    is on. *)
Lemma honeypot_exits options c w :
  let r := handler options c w in
  (fst r = next /\ console (snd r) = console w) \/
  (fst r = body None (code (status options)) /\
   console (snd r)
   = console w ++ (if shouldLog options then [log_line path_of c] else [])).
Proof.
  unfold handler, honeypot, bind; simpl.
  pose proof (some_test_console (path_of (req_path c))
                (rules options) w) as Hc.
  destruct (some _ _ w) as [b w1]; simpl in Hc.
  destruct b; [right|left; now split].
  destruct (shouldLog options); unfold console_log, ret; simpl;
    rewrite Hc; split; try reflexivity. now rewrite app_nil_r.
Qed.

(** With a rule list of stateless signatures the handler is a function of
    the path. *)
Lemma honeypot_stateless options c w :
  (forall r, In r (rules options) -> stateful r = false) ->
  let path := path_of (req_path c) in
  handler options c w
  = if existsb (fun r => matches r path) (rules options)
    then (body None (code (status options)),
          after w (evaluated path (rules options))
                (if shouldLog options then [log_line path_of c] else []))
    else (next, after w (evaluated path (rules options)) []).
Proof.
  intros Hs path. unfold handler, honeypot, bind.
  fold path. fold (rules options). rewrite some_stateless by assumption.
  destruct (existsb _ _); [|reflexivity].
  destruct (shouldLog options); unfold console_log, ret, after; simpl.
  - now rewrite app_nil_r.
  - reflexivity.
Qed.

(** The headers reach the log line only. *)
Lemma honeypot_headers options p mth h1 h2 w :
  let r1 := handler options (mkContext p mth h1) w in
  let r2 := handler options (mkContext p mth h2) w in
  fst r1 = fst r2 /\
  lastIndex (snd r1) = lastIndex (snd r2) /\
  tests (snd r1) = tests (snd r2).
Proof.
  unfold handler, honeypot, bind; simpl.
  destruct (some _ _ w) as [b w1].
  destruct b; [|auto].
  destruct (shouldLog options); unfold console_log, ret; simpl; auto.
Qed.

End Handler.

(** ** Letter case *)

Ltac each_ascii c :=
  destruct c as [[] [] [] [] [] [] [] []]; vm_compute; reflexivity.

Lemma upcase_idem c : Str.upper (Str.upper c) = Str.upper c.
Proof. each_ascii c. Qed.

Lemma upcase_downcase c : Str.upper (Str.lower c) = Str.upper c.
Proof. each_ascii c. Qed.

Lemma is_digit_upcase c : Str.is_digit (Str.upper c) = Str.is_digit c.
Proof. each_ascii c. Qed.

Lemma is_line_terminator_upcase c :
  Str.is_line_terminator (Str.upper c) = Str.is_line_terminator c.
Proof. each_ascii c. Qed.

Lemma is_slash_upcase c : Ascii.eqb (Str.upper c) "/" = Ascii.eqb c "/".
Proof. each_ascii c. Qed.

Lemma is_word_upcase c : Str.is_word (Str.upper c) = Str.is_word c.
Proof. each_ascii c. Qed.

Lemma fold_eq_upper a b : fold_eq a b -> Str.upper a = Str.upper b.
Proof. trivial. Qed.

Lemma fold_eq_digit a b : fold_eq a b -> Str.is_digit a = Str.is_digit b.
Proof.
  intros H. rewrite <- (is_digit_upcase a), <- (is_digit_upcase b). now f_equal.
Qed.

Lemma fold_eq_line_terminator a b :
  fold_eq a b -> Str.is_line_terminator a = Str.is_line_terminator b.
Proof.
  intros H.
  rewrite <- (is_line_terminator_upcase a), <- (is_line_terminator_upcase b).
  now f_equal.
Qed.

Lemma fold_eq_word a b : fold_eq a b -> Str.is_word a = Str.is_word b.
Proof.
  intros H. rewrite <- (is_word_upcase a), <- (is_word_upcase b). now f_equal.
Qed.

Lemma same_up_to_case_chars p q :
  same_up_to_case p q -> Forall2 fold_eq (Str.chars p) (Str.chars q).
Proof.
  unfold same_up_to_case, Str.chars.
  revert q; induction p as [|a p IH]; intros [|b q] H; simpl in *;
    try discriminate; constructor; injection H as Hc Hr.
  - exact Hc.
  - apply IH, Hr.
Qed.

Lemma same_up_to_case_upcase p : same_up_to_case (upcase p) p.
Proof.
  unfold same_up_to_case. induction p as [|a p IH]; simpl; [reflexivity|].
  now rewrite upcase_idem, IH.
Qed.

Lemma same_up_to_case_downcase p : same_up_to_case (downcase p) p.
Proof.
  unfold same_up_to_case. induction p as [|a p IH]; simpl; [reflexivity|].
  now rewrite upcase_downcase, IH.
Qed.

(** *** The matcher under the [i] flag does not see the case of the input *)

Lemma fold_length s1 s2 :
  Forall2 fold_eq s1 s2 -> List.length s1 = List.length s2.
Proof. induction 1; simpl; congruence. Qed.

Lemma fold_nth s1 s2 i :
  Forall2 fold_eq s1 s2 ->
  match nth_error s1 i, nth_error s2 i with
  | Some a, Some b => fold_eq a b
  | None, None => True
  | _, _ => False
  end.
Proof.
  intros Hs. revert i; induction Hs as [|a b l1 l2 Hab Hl IH]; intros [|i];
    simpl; auto.
  apply IH.
Qed.

Section CaseInsensitive.

Variables (ml da : bool) (s1 s2 : list ascii).
Hypothesis Hs : Forall2 fold_eq s1 s2.

Let K := nat -> option nat.

Lemma char_at_fold (p1 p2 : ascii -> bool) (k1 k2 : K) i :
  (forall a b, fold_eq a b -> p1 a = p2 b) ->
  (forall j, k1 j = k2 j) ->
  Regex.char_at s1 i p1 k1 = Regex.char_at s2 i p2 k2.
Proof.
  intros Hp Hk. unfold Regex.char_at. pose proof (fold_nth i Hs) as Hn.
  destruct (nth_error s1 i) as [a|], (nth_error s2 i) as [b|];
    try contradiction; [|reflexivity].
  rewrite (Hp a b Hn). now destruct (p2 b).
Qed.

Lemma at_line_start_fold i :
  Regex.at_line_start ml s1 i = Regex.at_line_start ml s2 i.
Proof.
  destruct i as [|j]; simpl; [reflexivity|]. pose proof (fold_nth j Hs) as Hn.
  destruct (nth_error s1 j) as [a|], (nth_error s2 j) as [b|];
    try contradiction; [|reflexivity].
  now rewrite (fold_eq_line_terminator Hn).
Qed.

Lemma at_line_end_fold i :
  Regex.at_line_end ml s1 i = Regex.at_line_end ml s2 i.
Proof.
  unfold Regex.at_line_end. pose proof (fold_nth i Hs) as Hn.
  destruct (nth_error s1 i) as [a|], (nth_error s2 i) as [b|];
    try contradiction.
  - now rewrite (fold_eq_line_terminator Hn).
  - now rewrite (fold_length Hs).
Qed.

Lemma is_word_at_fold i : Regex.is_word_at s1 i = Regex.is_word_at s2 i.
Proof.
  unfold Regex.is_word_at. pose proof (fold_nth i Hs) as Hn.
  destruct (nth_error s1 i) as [a|], (nth_error s2 i) as [b|];
    try contradiction; [|reflexivity].
  now apply fold_eq_word.
Qed.

Lemma at_word_boundary_fold i :
  Regex.at_word_boundary s1 i = Regex.at_word_boundary s2 i.
Proof.
  unfold Regex.at_word_boundary. rewrite is_word_at_fold.
  destruct i as [|j]; [reflexivity|]. now rewrite is_word_at_fold.
Qed.

Variables mr1 mr2 : K -> nat -> option nat.
Hypothesis Hmr :
  forall (k1 k2 : K) i, (forall j, k1 j = k2 j) -> mr1 k1 i = mr2 k2 i.

Lemma optional_fold (k1 k2 : K) n i :
  (forall j, k1 j = k2 j) ->
  Regex.optional mr1 k1 n i = Regex.optional mr2 k2 n i.
Proof.
  intros Hk. revert i; induction n as [|n IH]; intros i; simpl; [apply Hk|].
  rewrite (Hmr (fun j => if j =? i then None else Regex.optional mr1 k1 n j)
               (fun j => if j =? i then None else Regex.optional mr2 k2 n j)).
  - now rewrite Hk.
  - intros j. destruct (j =? i); [reflexivity|apply IH].
Qed.

Lemma optional_lazy_fold (k1 k2 : K) n i :
  (forall j, k1 j = k2 j) ->
  Regex.optional_lazy mr1 k1 n i = Regex.optional_lazy mr2 k2 n i.
Proof.
  intros Hk. revert i; induction n as [|n IH]; intros i; simpl; [apply Hk|].
  rewrite Hk.
  rewrite (Hmr (fun j => if j =? i then None
                         else Regex.optional_lazy mr1 k1 n j)
               (fun j => if j =? i then None
                         else Regex.optional_lazy mr2 k2 n j)).
  - reflexivity.
  - intros j. destruct (j =? i); [reflexivity|apply IH].
Qed.

Lemma required_fold (k1 k2 : K) n i :
  (forall j, k1 j = k2 j) ->
  Regex.required mr1 k1 n i = Regex.required mr2 k2 n i.
Proof.
  intros Hk. revert i; induction n as [|n IH]; intros i; simpl; [apply Hk|].
  apply Hmr. intros j. apply IH.
Qed.

End CaseInsensitive.

Lemma m_fold ml da s1 s2 r :
  Forall2 fold_eq s1 s2 ->
  forall (k1 k2 : nat -> option nat) i,
    (forall j, k1 j = k2 j) ->
    Regex.m true ml da s1 r k1 i = Regex.m true ml da s2 r k2 i.
Proof.
  intros Hs. induction r as [| p | | | | | r1 IH1 r2 IH2 | r1 IH1 r2 IH2
                            | r IH | r IH mn extra | r IH mn extra
                            | invert items | negated | negated r IH];
    intros k1 k2 i Hk; simpl.
  - apply Hk.
  - apply (char_at_fold Hs); [|assumption].
    intros a b Hab. unfold Regex.canonicalize. now rewrite (fold_eq_upper Hab).
  - apply (char_at_fold Hs); [|assumption].
    intros a b Hab. now rewrite (fold_eq_line_terminator Hab).
  - apply (char_at_fold Hs); [|assumption]. apply fold_eq_digit.
  - rewrite (at_line_start_fold ml Hs), Hk. reflexivity.
  - rewrite (at_line_end_fold ml Hs), Hk. reflexivity.
  - apply IH1. intros j. now apply IH2.
  - rewrite (IH1 k1 k2 i Hk), (IH2 k1 k2 i Hk). reflexivity.
  - now apply IH.
  - rewrite (fold_length Hs).
    apply required_fold; [exact IH|]. intros j.
    apply optional_fold; [exact IH|exact Hk].
  - rewrite (fold_length Hs).
    apply required_fold; [exact IH|]. intros j.
    apply optional_lazy_fold; [exact IH|exact Hk].
  - apply (char_at_fold Hs); [|assumption].
    intros a b Hab. unfold Regex.in_class, Regex.canonicalize.
    now rewrite (fold_eq_upper Hab).
  - rewrite (at_word_boundary_fold Hs), Hk. reflexivity.
  - rewrite (IH Some Some i) by reflexivity. now rewrite Hk.
Qed.

Lemma scan_fold ml da s1 s2 r n i :
  Forall2 fold_eq s1 s2 ->
  Regex.scan true ml da s1 r n i = Regex.scan true ml da s2 r n i.
Proof.
  intros Hs. revert i; induction n as [|n IH]; intros i; simpl; [reflexivity|].
  rewrite (m_fold ml da r Hs Some Some i) by reflexivity.
  now rewrite IH.
Qed.

(** A signature with the [i] flag matches a path and its case variants
    alike. *)
Lemma matches_fold r p q :
  ignoreCase r = true -> same_up_to_case p q -> matches r p = matches r q.
Proof.
  intros Hi Hpq. apply same_up_to_case_chars in Hpq.
  unfold matches, exec_from. destruct (Regex.parse (source r)); [|reflexivity].
  rewrite Hi, (fold_length Hpq).
  now rewrite (scan_fold (multiline r) (dotAll r) r0 _ _ Hpq).
Qed.

(** ** Collapsing the slashes *)

Lemma run_le l : run l <= List.length l.
Proof. induction l as [|c l IH]; simpl; [lia|]. destruct (is_slash c); lia. Qed.

Lemma until_slash_le l : until_slash l <= List.length l.
Proof. induction l as [|c l IH]; simpl; [lia|]. destruct (is_slash c); lia. Qed.

Lemma run_at_slash l :
  until_slash l < List.length l -> 1 <= run (skipn (until_slash l) l).
Proof.
  induction l as [|c l IH]; simpl; [lia|].
  destruct (is_slash c) eqn:Hc; simpl.
  - rewrite Hc. lia.
  - intros H. apply IH. lia.
Qed.

Lemma collapse_until l :
  collapse_chars l
  = firstn (until_slash l) l ++ collapse_chars (skipn (until_slash l) l).
Proof.
  induction l as [|c l IH]; [reflexivity|].
  cbn [until_slash]. destruct (is_slash c) eqn:Hc; [reflexivity|].
  cbn [firstn skipn collapse_chars app]. rewrite Hc. simpl. now f_equal.
Qed.

Lemma collapse_run l :
  1 <= run l -> collapse_chars l = "/"%char :: collapse_chars (skipn (run l) l).
Proof.
  induction l as [|c l IH]; [simpl; lia|].
  cbn [run collapse_chars]. destruct (is_slash c) eqn:Hc; [|lia]. intros _.
  apply Ascii.eqb_eq in Hc. subst c.
  cbn [skipn andb]. destruct l as [|d l]; [reflexivity|].
  cbn [starts_with_slash]. destruct (is_slash d) eqn:Hd.
  - apply IH. cbn [run]. rewrite Hd. lia.
  - cbn [run]. rewrite Hd. reflexivity.
Qed.

Lemma skipn_nth_error (l : list ascii) i c :
  nth_error l i = Some c -> skipn i l = c :: skipn (S i) l.
Proof.
  revert i; induction l as [|a l IH]; intros [|i] H; simpl in *;
    try discriminate.
  - now injection H as ->.
  - now apply IH.
Qed.

Lemma skipn_nth_error_none (l : list ascii) i :
  nth_error l i = None -> skipn i l = [].
Proof.
  intros H. apply skipn_all2. now apply nth_error_None.
Qed.

(** *** The pattern [\/+] *)

Section Slashes.

Variable input : list ascii.

Let mslash := Regex.m false false false input (Regex.Chr "/").

Lemma mslash_eq k i :
  mslash k i
  = match nth_error input i with
    | Some c => if is_slash c then k (S i) else None
    | None => None
    end.
Proof. reflexivity. Qed.

Lemma optional_slashes n i :
  Regex.optional mslash Some n i
  = Some (i + Nat.min n (run (skipn i input))).
Proof.
  revert i; induction n as [|n IH]; intros i; cbn [Regex.optional].
  - f_equal. lia.
  - rewrite mslash_eq.
    destruct (nth_error input i) as [c|] eqn:Hn.
    + rewrite (skipn_nth_error _ _ Hn). cbn [run].
      destruct (is_slash c).
      * rewrite (proj2 (Nat.eqb_neq (S i) i)) by lia.
        rewrite IH. f_equal. lia.
      * f_equal. lia.
    + rewrite (skipn_nth_error_none _ _ Hn). cbn [run]. f_equal. lia.
Qed.

Lemma m_slashes i :
  Regex.m false false false input slashes Some i
  = match nth_error input i with
    | Some c =>
        if is_slash c then Some (i + run (skipn i input)) else None
    | None => None
    end.
Proof.
  change (Regex.m false false false input slashes Some i)
    with (mslash (Regex.optional mslash Some (List.length input)) i).
  rewrite mslash_eq.
  destruct (nth_error input i) as [c|] eqn:Hn; [|reflexivity].
  destruct (is_slash c) eqn:Hc; [|reflexivity].
  rewrite optional_slashes, (skipn_nth_error _ _ Hn). cbn [run]. rewrite Hc.
  f_equal.
  pose proof (run_le (skipn (S i) input)) as Hr.
  rewrite length_skipn in Hr. lia.
Qed.

Lemma scan_slashes n i :
  List.length (skipn i input) < n ->
  Regex.scan false false false input slashes n i
  = let l := skipn i input in
    let u := until_slash l in
    if u <? List.length l
    then Some (i + u, i + u + run (skipn u l))
    else None.
Proof.
  revert i; induction n as [|n IH]; intros i Hn; [lia|].
  cbn [Regex.scan]. rewrite m_slashes. cbv zeta.
  destruct (nth_error input i) as [c|] eqn:Hc.
  - rewrite (skipn_nth_error _ _ Hc) in *. cbn [until_slash].
    destruct (is_slash c) eqn:Hs.
    + cbn [List.length skipn run]. rewrite Hs.
      rewrite (proj2 (Nat.ltb_lt 0 _)) by lia.
      now rewrite !Nat.add_0_r.
    + cbn [List.length] in Hn. rewrite IH by lia. cbv zeta.
      set (l' := skipn (S i) input).
      cbn [List.length skipn].
      change (S (until_slash l') <? S (List.length l'))
        with (until_slash l' <? List.length l').
      destruct (until_slash l' <? List.length l'); [|reflexivity].
      do 2 f_equal; lia.
  - rewrite (skipn_nth_error_none _ _ Hc) in *. cbn [until_slash List.length].
    rewrite Nat.ltb_irrefl.
    destruct n as [|n]; [reflexivity|].
    rewrite IH.
    + assert (Hn' : skipn (S i) input = []).
      { apply skipn_all2. apply nth_error_None in Hc. lia. }
      now rewrite Hn'.
    + rewrite length_skipn. apply nth_error_None in Hc. lia.
Qed.

End Slashes.

Lemma chars_length s : List.length (Str.chars s) = String.length s.
Proof. induction s as [|c s IH]; simpl; congruence. Qed.

Lemma exec_slashes str li :
  exec_from (R "\/+" "g" 0) slashes str li
  = Regex.scan false false false (Str.chars str) slashes
               (List.length (Str.chars str) + 1 - li) li.
Proof. reflexivity. Qed.

Lemma replace_loop_collapse str fuel i :
  i <= List.length (Str.chars str) ->
  List.length (Str.chars str) - i < fuel ->
  replace_loop (R "\/+" "g" 0) slashes str ["/"%char] fuel i i
  = collapse_chars (skipn i (Str.chars str)).
Proof.
  set (input := Str.chars str).
  revert i; induction fuel as [|fuel IH]; intros i Hi Hf; [lia|].
  cbn [replace_loop]. rewrite exec_slashes. fold input.
  rewrite scan_slashes by (rewrite length_skipn; lia). cbv zeta.
  set (l := skipn i input).
  assert (Hl : List.length l = List.length input - i)
    by (unfold l; apply length_skipn).
  pose proof (until_slash_le l) as Hu.
  rewrite (collapse_until l).
  destruct (until_slash l <? List.length l) eqn:Hlt.
  - apply Nat.ltb_lt in Hlt.
    pose proof (run_at_slash l Hlt) as Hr1.
    pose proof (run_le (skipn (until_slash l) l)) as Hr2.
    rewrite length_skipn in Hr2.
    set (u := until_slash l) in *. set (n := run (skipn u l)) in *.
    rewrite (proj2 (Nat.eqb_neq (i + u + n) (i + u))) by lia.
    replace (i + u - i) with u by lia.
    rewrite IH by lia.
    rewrite (collapse_run (skipn u l)) by exact Hr1. fold n.
    unfold l. rewrite !skipn_skipn.
    replace (n + u + i) with (i + u + n) by lia. reflexivity.
  - apply Nat.ltb_ge in Hlt.
    replace (until_slash l) with (List.length l) by lia.
    rewrite firstn_all, skipn_all. cbn [collapse_chars]. now rewrite app_nil_r.
Qed.

(** [normalize] collapses the slashes. *)
Lemma normalize_collapse rawPath :
  Part003.normalize rawPath = collapse_slashes rawPath.
Proof.
  unfold Part003.normalize, replace_global, collapse_slashes.
  replace (Regex.parse (source (R "\/+" "g" 0))) with (Some slashes)
    by (vm_compute; reflexivity).
  f_equal.
  change (Str.chars "/") with ["/"%char].
  rewrite replace_loop_collapse.
  - reflexivity.
  - lia.
  - rewrite chars_length. lia.
Qed.

(** ** The built-in tables *)

Lemma Index_table : builtin_table Index.ATTACK_PATTERNS = true.
Proof. vm_compute. reflexivity. Qed.

Lemma Part002_table : builtin_table Part002.ATTACK_PATTERNS = true.
Proof. vm_compute. reflexivity. Qed.

Lemma Part003_table : builtin_table Part003.ATTACK_PATTERNS = true.
Proof. vm_compute. reflexivity. Qed.

Lemma builtin_table_stateless t :
  builtin_table t = true -> forall r, In r t -> stateful r = false.
Proof.
  intros Ht r Hr. unfold builtin_table in Ht.
  rewrite forallb_forall in Ht. specialize (Ht r Hr).
  apply andb_true_iff in Ht. now apply negb_true_iff.
Qed.

Lemma builtin_table_ignoreCase t :
  builtin_table t = true -> forall r, In r t -> ignoreCase r = true.
Proof.
  intros Ht r Hr. unfold builtin_table in Ht.
  rewrite forallb_forall in Ht. specialize (Ht r Hr).
  now apply andb_true_iff in Ht.
Qed.

(** The rule list over a stateless table is stateless as soon as the
    additions that survive the exclusions are. *)
Lemma patterns_stateless t options :
  builtin_table t = true ->
  (forall r, In r (additions options) -> survives options r = true ->
             stateful r = false) ->
  forall r, In r (patterns t options) -> stateful r = false.
Proof.
  intros Ht Ha r Hr. apply in_patterns in Hr. destruct Hr as [Hin Hs].
  apply in_app_or in Hin. destruct Hin as [Hin|Hin].
  - now apply (builtin_table_stateless t).
  - now apply Ha.
Qed.

(** ** The decision *)

Lemma existsb_false_iff (f : RegExp -> bool) l :
  existsb f l = false <-> forall r, In r l -> f r = false.
Proof.
  split.
  - intros He r Hr. destruct (f r) eqn:Hf; [|reflexivity].
    assert (existsb f l = true) by (apply existsb_exists; eauto). congruence.
  - intros Ha. destruct (existsb f l) eqn:He; [|reflexivity].
    apply existsb_exists in He. destruct He as [r [Hr Hf]].
    rewrite (Ha r Hr) in Hf. discriminate.
Qed.

(** A handler over a stateless rule list takes the first-match decision on
    the path it evaluates. *)
Lemma honeypot_first_match t path_of options c w :
  (forall r, In r (patterns t options) -> stateful r = false) ->
  first_match_decision (patterns t options) (path_of (req_path c))
    (status options) w (honeypot t path_of options c w).
Proof.
  intros Hs. rewrite (honeypot_stateless t path_of options c w Hs). cbv zeta.
  set (path := path_of (req_path c)). set (rules := patterns t options).
  unfold first_match_decision.
  destruct (existsb (fun r => matches r path) rules) eqn:He; simpl.
  - pose proof He as Hex. apply existsb_exists in Hex.
    repeat split.
    + discriminate.
    + intros Hall. destruct Hex as [r [Hr Hm]]. rewrite (Hall r Hr) in Hm.
      discriminate.
    + intros _. exact Hex.
    + intros pre r post Heq Hpre Hm.
      rewrite Heq, (evaluated_first_match path pre r post Hpre Hm). lia.
    + intros Hall. destruct Hex as [r [Hr Hm]]. rewrite (Hall r Hr) in Hm.
      discriminate.
  - pose proof (proj1 (existsb_false_iff _ _) He) as Hall.
    repeat split.
    + intros _. exact Hall.
    + discriminate.
    + intros [r [Hr Hm]]. rewrite (Hall r Hr) in Hm. discriminate.
    + intros pre r post Heq Hpre Hm.
      rewrite (Hall r) in Hm; [discriminate|].
      rewrite Heq. apply in_or_app. right. now left.
    + intros _. now rewrite (evaluated_no_match path rules Hall).
Qed.

(** For a configuration whose surviving additions are signatures of the
    modelled engine without the flags [g] and [y], the handler of the third
    snapshot takes the first-match decision on the path with its slashes
    collapsed; the two earlier snapshots do on every path that has no run
    of slashes to collapse. *)
Lemma first_match_without_global_signatures options c w :
  (forall r, In r (additions options) -> survives options r = true ->
             stateful r = false /\ in_fragment r = true) ->
  let path := collapse_slashes (req_path c) in
  first_match_decision (patterns Part003.ATTACK_PATTERNS options) path
    (status options) w (Part003.honeypot options c w) /\
  (path = req_path c ->
   first_match_decision (patterns Index.ATTACK_PATTERNS options) path
     (status options) w (Index.honeypot options c w) /\
   first_match_decision (patterns Part002.ATTACK_PATTERNS options) path
     (status options) w (Part002.honeypot options c w)).
Proof.
  intros Hall path.
  assert (Ha : forall r, In r (additions options) ->
                         survives options r = true -> stateful r = false)
    by (intros r Hr Hs; now apply Hall).
  split; [|intros Hp; split].
  - unfold path. rewrite <- normalize_collapse.
    apply honeypot_first_match, patterns_stateless; [apply Part003_table|exact Ha].
  - rewrite Hp.
    apply (honeypot_first_match Index.ATTACK_PATTERNS (fun p => p)),
      patterns_stateless; [apply Index_table|exact Ha].
  - rewrite Hp.
    apply (honeypot_first_match Part002.ATTACK_PATTERNS (fun p => p)),
      patterns_stateless; [apply Part002_table|exact Ha].
Qed.

(** C1: a signature of the rule list matches the path and the request is
    passed on.  With the addition [/^\/secret/g] the first request for
    [/secret] is blocked and leaves the [lastIndex] of the signature at 7;
    the next request for [/secret] starts the test there and goes to
    [next()], although the signature is in the rule list and matches the
    path, which has no slashes to collapse.  So in src/index.ts, and so in
    the snapshot that normalises. *)
Theorem C1_global_signature_lets_a_match_through :
  let w1 := snd (Index.honeypot options_secret_g (get "/secret") world0) in
  let w3 := snd (Part003.honeypot options_secret_g (get "/secret") world0) in
  (In secret_g (patterns Index.ATTACK_PATTERNS options_secret_g) /\
   in_fragment secret_g = true /\
   matches secret_g "/secret" = true /\
   fst (Index.honeypot options_secret_g (get "/secret") world0)
   = body None 410 /\
   lastIndex w1 (ref secret_g) = 7 /\
   fst (Index.honeypot options_secret_g (get "/secret") w1) = next) /\
  (In secret_g (patterns Part003.ATTACK_PATTERNS options_secret_g) /\
   matches secret_g (collapse_slashes "/secret") = true /\
   fst (Part003.honeypot options_secret_g (get "/secret") world0)
   = body None 410 /\
   lastIndex w3 (ref secret_g) = 7 /\
   fst (Part003.honeypot options_secret_g (get "/secret") w3) = next).
Proof.
  cbv zeta. split.
  - split; [|vm_compute; repeat split].
    apply in_patterns. split; [|reflexivity]. apply in_or_app. right. now left.
  - split; [|vm_compute; repeat split].
    apply in_patterns. split; [|reflexivity]. apply in_or_app. right. now left.
Qed.

(** ** Decisions under the default configuration *)

Lemma decides_by_table t path_of path o :
  builtin_table t = true ->
  (if existsb (fun r => matches r (path_of path)) (patterns t no_options)
   then body None (code (status no_options)) else next) = o ->
  decides (honeypot t path_of) path o.
Proof.
  intros Ht Ho mth h w.
  rewrite honeypot_stateless.
  - cbv zeta. simpl req_path. rewrite <- Ho. now destruct (existsb _ _).
  - apply patterns_stateless; [exact Ht|]. simpl. intros r [].
Qed.

Ltac by_table T :=
  apply decides_by_table; [exact T | vm_compute; reflexivity].

(** C2: the handler of src/index.ts binds [path] to [c.req.path] as it
    comes, so that [//blog] and [///admin] go to [next()] where [/blog] and
    [/admin] get the 410 response; the second snapshot does the same. *)
Theorem C2_index_tests_the_path_as_received :
  (decides Index.honeypot "//blog" next /\
   decides Index.honeypot "/blog" (body None 410) /\
   decides Index.honeypot "///admin" next /\
   decides Index.honeypot "/admin" (body None 410)) /\
  (decides Part002.honeypot "//blog" next /\
   decides Part002.honeypot "/blog" (body None 410) /\
   decides Part002.honeypot "///admin" next /\
   decides Part002.honeypot "/admin" (body None 410)).
Proof.
  split; repeat split; first [by_table Index_table | by_table Part002_table].
Qed.

(** *** The third snapshot normalises *)

Lemma collapse_chars_idem l :
  collapse_chars (collapse_chars l) = collapse_chars l.
Proof.
  induction l as [|c l IH]; [reflexivity|].
  cbn [collapse_chars].
  destruct (is_slash c && starts_with_slash l) eqn:Hc; [exact IH|].
  cbn [collapse_chars]. rewrite IH.
  replace (starts_with_slash (collapse_chars l)) with (starts_with_slash l).
  - now rewrite Hc.
  - destruct l as [|d l]; [reflexivity|]. cbn [collapse_chars].
    destruct (is_slash d && starts_with_slash l) eqn:Hd; [|reflexivity].
    apply andb_true_iff in Hd. destruct Hd as [Hd Hl].
    cbn [starts_with_slash]. rewrite Hd.
    clear - Hl Hd. revert d Hd Hl.
    induction l as [|e l IHl]; intros d Hd Hl; [discriminate|].
    cbn [starts_with_slash] in Hl. cbn [collapse_chars].
    destruct (starts_with_slash l) eqn:Hl'.
    + rewrite Hl. cbn [andb]. now apply (IHl e).
    + rewrite andb_false_r. cbn [starts_with_slash]. now symmetry.
Qed.

(** Collapsing twice is collapsing once. *)
Lemma collapse_slashes_idem p :
  collapse_slashes (collapse_slashes p) = collapse_slashes p.
Proof.
  unfold collapse_slashes, Str.chars, Str.of_chars.
  now rewrite list_ascii_of_string_of_list_ascii, collapse_chars_idem.
Qed.

(** The handler of the third snapshot sees a request through its collapsed
    path: the request for [p] and the request for [p] collapsed are
    answered alike and leave the same world, in every configuration. *)
Theorem Part003_sees_the_collapsed_path options p mth h w :
  Part003.honeypot options (mkContext p mth h) w
  = Part003.honeypot options (mkContext (collapse_slashes p) mth h) w.
Proof.
  unfold Part003.honeypot, honeypot; simpl.
  now rewrite !normalize_collapse, collapse_slashes_idem.
Qed.

(** The requests of the bypass test get the 410 response there. *)
Theorem Part003_blocks_the_bypass :
  decides Part003.honeypot "//blog" (body None 410) /\
  decides Part003.honeypot "///admin" (body None 410) /\
  decides Part003.honeypot "/wp-admin//index.php" (body None 410).
Proof. repeat split; by_table Part003_table. Qed.

(** ** Exclusions *)

Lemma honeypot_fst t path_of options c w :
  fst (honeypot t path_of options c w)
  = if fst (some (fun p => test p (path_of (req_path c)))
                 (patterns t options) w)
    then body None (code (status options)) else next.
Proof.
  unfold honeypot, bind. destruct (some _ _ w) as [b w1]. simpl.
  destruct b; [|reflexivity]. now destruct (shouldLog options).
Qed.

(** A signature of a stateless table that survives blocks every path it
    matches, whatever the additions are. *)
Lemma surviving_builtin_blocks t path_of options b c w :
  (forall r, In r t -> stateful r = false) ->
  In b t -> survives options b = true ->
  matches b (path_of (req_path c)) = true ->
  fst (honeypot t path_of options c w) = body None (code (status options)).
Proof.
  intros Ht Hb Hs Hm. rewrite honeypot_fst, patterns_filter, filter_app.
  assert (Hin : In b (filter (survives options) t))
    by (apply filter_In; now split).
  apply in_split in Hin. destruct Hin as [pre [post Heq]].
  rewrite Heq, <- app_assoc, <- app_comm_cons.
  rewrite some_reaches; auto.
  intros q Hq. apply Ht.
  assert (Hq' : In q (filter (survives options) t))
    by (rewrite Heq; apply in_or_app; now left).
  now apply filter_In in Hq'.
Qed.

Lemma scan_ext ic ml da input r1 r2 n i :
  (forall j, Regex.m ic ml da input r1 Some j
             = Regex.m ic ml da input r2 Some j) ->
  Regex.scan ic ml da input r1 n i = Regex.scan ic ml da input r2 n i.
Proof.
  intros H. revert i; induction n as [|n IH]; intros i; simpl; [reflexivity|].
  now rewrite H, IH.
Qed.

(** Two RegExps with the same flags whose patterns the matcher cannot tell
    apart match the same strings. *)
Lemma matches_by_pattern r1 r2 p1 p2 str :
  Regex.parse (source r1) = Some p1 ->
  Regex.parse (source r2) = Some p2 ->
  flags r1 = flags r2 ->
  (forall input j,
      Regex.m (ignoreCase r1) (multiline r1) (dotAll r1) input p1 Some j
      = Regex.m (ignoreCase r1) (multiline r1) (dotAll r1) input p2 Some j) ->
  matches r1 str = matches r2 str.
Proof.
  intros H1 H2 Hf Hm. unfold matches, exec_from. rewrite H1, H2.
  unfold ignoreCase, multiline, dotAll, sticky, has_flag in *.
  rewrite <- Hf. erewrite scan_ext; [reflexivity|]. intros j. apply Hm.
Qed.

Lemma blog_in_a_group_matches_as_blog str :
  matches blog_in_a_group str = matches blog str.
Proof.
  eapply matches_by_pattern;
    [vm_compute; reflexivity | vm_compute; reflexivity | reflexivity |].
  intros input j. reflexivity.
Qed.

(** C3: a built-in signature is out of the rule list if and only if some
    exclusion has exactly its source text.  A built-in whose source text no
    exclusion has stays in the list and blocks every path it matches,
    whatever the exclusions match.  An exclusion whose source text is that
    of no signature changes nothing: the rule list is the one composed
    without it.  Composition is a total function: there is no error to
    raise. *)
Theorem C3_exclusion_is_by_source_text t path_of options b :
  (forall r, In r t -> stateful r = false) ->
  In b t ->
  (~ In b (patterns t options) <->
   exists e, In e (exclusions options) /\ source e = source b) /\
  ((forall e, In e (exclusions options) -> source e <> source b) ->
   In b (patterns t options) /\
   forall c w,
     matches b (path_of (req_path c)) = true ->
     fst (honeypot t path_of options c w)
     = body None (code (status options))) /\
  (forall xs e ys,
     opt_exclude options = Some (xs ++ e :: ys) ->
     (forall r, In r (t ++ additions options) -> source e <> source r) ->
     patterns t options
     = patterns t (mkOptions (opt_patterns options) (Some (xs ++ ys))
                             (opt_log options) (opt_status options))).
Proof.
  intros Ht Hb. split; [|split].
  - rewrite <- removed_iff. rewrite in_patterns. split.
    + intros Hn. destruct (survives options b) eqn:Hs; [|reflexivity].
      exfalso. apply Hn. split; [|reflexivity]. apply in_or_app. now left.
    + intros Hs [_ Hs']. congruence.
  - intros Hne. apply survives_iff in Hne. split.
    + apply in_patterns. split; [|exact Hne]. apply in_or_app. now left.
    + intros c w Hm. now apply surviving_builtin_blocks with (b := b).
  - intros xs e ys Hex Hne. rewrite !patterns_filter.
    unfold additions; simpl. apply filter_ext_in. intros r Hr.
    unfold survives, exclusions; simpl. rewrite Hex; simpl.
    rewrite !existsb_app; simpl.
    replace (source r =? source e)%string with false; [reflexivity|].
    symmetry. apply String.eqb_neq. intros Heq. now apply (Hne r Hr).
Qed.

(** C3 on src/index.ts with [exclude: [/^\/(blog)$/i]]: the exclusion
    matches what [/^\/blog$/i] matches, and [/blog] is blocked still. *)
Lemma C3_exclusion_is_by_source_text_witness :
  let options := mkOptions None (Some [blog_in_a_group]) None None in
  (forall str, matches blog_in_a_group str = matches blog str) /\
  In blog (patterns Index.ATTACK_PATTERNS options) /\
  fst (Index.honeypot options (get "/blog") world0) = body None 410.
Proof.
  intros options.
  pose proof (@C3_exclusion_is_by_source_text Index.ATTACK_PATTERNS
                (fun p => p) options blog
                (builtin_table_stateless _ Index_table)
                (nth_error_In Index.ATTACK_PATTERNS 45 eq_refl)) as [_ [H _]].
  assert (Hne : forall e, In e (exclusions options) -> source e <> source blog).
  { simpl. intros e [<-|[]]. vm_compute. discriminate. }
  destruct (H Hne) as [Hin Hblock].
  split; [exact blog_in_a_group_matches_as_blog|].
  split; [exact Hin|].
  apply (Hblock (get "/blog") world0). vm_compute. reflexivity.
Defined.

(** C4, as stated, fails: an exclusion with the source text of an addition
    removes the addition.  The list the claim describes holds [secret];
    the rule list does not, and [/secret] goes to [next()]. *)
Lemma C4_an_addition_is_excluded :
  In secret
     (filter (survives options_secret_excluded) Index.ATTACK_PATTERNS
      ++ additions options_secret_excluded) /\
  patterns Index.ATTACK_PATTERNS options_secret_excluded
  = Index.ATTACK_PATTERNS /\
  ~ In secret (patterns Index.ATTACK_PATTERNS options_secret_excluded) /\
  fst (Index.honeypot options_secret_excluded (get "/secret") world0) = next.
Proof.
  split; [|split; [|split]].
  - apply in_or_app. right. now left.
  - vm_compute. reflexivity.
  - intros H. apply in_patterns in H. destruct H as [_ H]. vm_compute in H.
    discriminate.
  - vm_compute. reflexivity.
Qed.

(** C4 (amended): the rule list is the built-in table without its excluded
    signatures, followed by the additions without their excluded
    signatures, each part in its given order; without exclusions it is the
    table followed by the additions. *)
Theorem C4_rule_list_composition t options :
  patterns t options
  = filter (survives options) t ++ filter (survives options) (additions options)
  /\ (exclusions options = [] -> patterns t options = t ++ additions options).
Proof.
  split.
  - rewrite patterns_filter. apply filter_app.
  - intros He. rewrite patterns_filter.
    apply forallb_filter_id, forallb_forall. intros r _.
    unfold survives. now rewrite He.
Qed.

(** C5: a request that is not passed on gets the empty response with
    exactly the configured status; the status is one of 410, 404 and 403,
    it is 410 when the option is absent, and with [status: 403] every
    blocked request gets 403. *)
Theorem C5_blocked_requests_get_the_configured_status t path_of options c w :
  let res := honeypot t path_of options c w in
  (fst res = next \/ fst res = body None (code (status options))) /\
  (code (status options) = 410 \/ code (status options) = 404 \/
   code (status options) = 403)%Z /\
  (opt_status options = None -> code (status options) = 410%Z) /\
  (forall s, opt_status options = Some s -> status options = s) /\
  (opt_status options = Some Forbidden ->
   fst res = next \/ fst res = body None 403).
Proof.
  intros res.
  assert (Hres : fst res = next \/ fst res = body None (code (status options))).
  { unfold res. rewrite honeypot_fst. destruct (fst _); auto. }
  split; [exact Hres|]. split; [|split; [|split]].
  - destruct (status options); simpl; auto.
  - unfold status. now intros ->.
  - unfold status. now intros s ->.
  - intros Hf. unfold status in Hres. now rewrite Hf in Hres.
Qed.

(** C10: a signature of the table or of the additions is out of the rule
    list as soon as an exclusion has its source text; the flags of the
    exclusion are not looked at. *)
Theorem C10_exclusion_ignores_flags t options r e :
  In r (t ++ additions options) ->
  In e (exclusions options) ->
  source e = source r ->
  ~ In r (patterns t options).
Proof.
  intros _ He Hs Hin. apply in_patterns in Hin. destruct Hin as [_ Hsv].
  assert (Hrm : survives options r = false) by (apply removed_iff; eauto).
  congruence.
Qed.

(** C10 on src/index.ts with [exclude: [/^\/blog$/]]: the flags differ,
    the built-in [/^\/blog$/i] is removed and [/blog] goes to [next()]. *)
Lemma C10_exclusion_ignores_flags_witness :
  let options := mkOptions None (Some [blog_case_sensitive]) None None in
  flags blog_case_sensitive <> flags blog /\
  ~ In blog (patterns Index.ATTACK_PATTERNS options) /\
  fst (Index.honeypot options (get "/blog") world0) = next.
Proof.
  intros options. split; [|split].
  - vm_compute. discriminate.
  - apply (@C10_exclusion_ignores_flags Index.ATTACK_PATTERNS options blog
             blog_case_sensitive).
    + apply in_or_app. left.
      exact (nth_error_In Index.ATTACK_PATTERNS 45 eq_refl).
    + simpl. now left.
    + reflexivity.
  - vm_compute. reflexivity.
Defined.

(** ** The regression set *)

Lemma scan_line_start ic da input r n i :
  Regex.scan ic false da input (Regex.Seq Regex.LineStart r) n (S i) = None.
Proof.
  revert i; induction n as [|n IH]; intros i; [reflexivity|].
  cbn [Regex.scan Regex.m Regex.at_line_start andb]. apply IH.
Qed.

Lemma matches_anchored r p str :
  Regex.parse (source r) = Some (Regex.Seq Regex.LineStart p) ->
  multiline r = false -> sticky r = false ->
  matches r str
  = is_some (Regex.m (ignoreCase r) false (dotAll r) (Str.chars str) p Some 0).
Proof.
  intros Hp Hm Hs. unfold matches, exec_from. rewrite Hp, Hm, Hs.
  rewrite Nat.sub_0_r, Nat.add_1_r.
  cbn [Regex.scan Regex.m Regex.at_line_start].
  destruct (Regex.m _ _ _ _ p Some 0); [reflexivity|].
  now rewrite scan_line_start.
Qed.

Lemma upper_slash c :
  Ascii.eqb (Str.upper c) (Str.upper "/") = Ascii.eqb c "/".
Proof. each_ascii c. Qed.

(** The year-folder signature matches a slash and four digits, and nothing
    else. *)
Lemma year_folder_exact str :
  matches year_folder str = true <->
  exists d1 d2 d3 d4,
    Str.is_digit d1 = true /\ Str.is_digit d2 = true /\
    Str.is_digit d3 = true /\ Str.is_digit d4 = true /\
    str = String "/" (String d1 (String d2 (String d3 (String d4 "")))).
Proof.
  rewrite (@matches_anchored year_folder
             (Regex.Seq (Regex.Chr "/")
                (Regex.Seq (Regex.Repeat Regex.Digit 4 (Some 0))
                   (Regex.Seq Regex.LineEnd Regex.Empty))))
    by (vm_compute; reflexivity).
  change (ignoreCase year_folder) with true.
  change (dotAll year_folder) with false.
  split.
  - destruct str as [|c0 [|c1 [|c2 [|c3 [|c4 [|c5 str]]]]]];
      cbn [Str.chars list_ascii_of_string Regex.m Regex.char_at nth_error
           Regex.required Regex.optional Regex.canonicalize Regex.at_line_end
           List.length Nat.eqb andb is_some];
      rewrite ?upper_slash;
      repeat match goal with
             | |- context [if ?b then _ else _] => destruct b eqn:?
             end;
      cbn [is_some]; try discriminate.
    intros _. apply Ascii.eqb_eq in Heqb. subst c0.
    exists c1, c2, c3, c4. auto.
  - intros (d1 & d2 & d3 & d4 & H1 & H2 & H3 & H4 & ->).
    cbn [Str.chars list_ascii_of_string Regex.m Regex.char_at nth_error
           Regex.required Regex.optional Regex.canonicalize Regex.at_line_end
           List.length Nat.eqb andb is_some].
    rewrite upper_slash, H1, H2, H3, H4. reflexivity.
Qed.

(** C6: under the built-in table of each snapshot, [/admin] is blocked and
    [/api/admin] passed on, [/blog] blocked and [/blogs] passed on,
    [/wp-admin] and [/foo/wp-admin/index.php] blocked, [/2017] and [/2024]
    blocked, [/abcd] and [/12345] passed on.  The year-folder signature
    matches exactly the paths made of a slash and four digits, and it is
    the one signature that blocks [/2017] and [/2024]: without it they
    are passed on. *)
Theorem C6_regression_set :
  regression_set Index.honeypot /\
  regression_set Part002.honeypot /\
  regression_set Part003.honeypot /\
  (forall str,
     matches year_folder str = true <->
     exists d1 d2 d3 d4,
       Str.is_digit d1 = true /\ Str.is_digit d2 = true /\
       Str.is_digit d3 = true /\ Str.is_digit d4 = true /\
       str = String "/" (String d1 (String d2 (String d3 (String d4 ""))))) /\
  (forall mw, In mw [Index.honeypot; Part002.honeypot; Part003.honeypot] ->
     fst (mw options_without_years (get "/2017") world0) = next /\
     fst (mw options_without_years (get "/2024") world0) = next).
Proof.
  split; [|split; [|split; [|split]]].
  - unfold regression_set. repeat split; by_table Index_table.
  - unfold regression_set. repeat split; by_table Part002_table.
  - unfold regression_set. repeat split; by_table Part003_table.
  - exact year_folder_exact.
  - intros mw [<-|[<-|[<-|[]]]]; split; vm_compute; reflexivity.
Qed.

(** ** Logging *)

Lemma split_chars_first cur v :
  hd_error (Str.split_chars "," cur (Str.chars v))
  = Some (rev cur ++ Str.chars (before_comma v)).
Proof.
  revert cur; induction v as [|c v IH]; intros cur; simpl.
  - now rewrite app_nil_r.
  - destruct (Ascii.eqb c ","); simpl.
    + now rewrite app_nil_r.
    + rewrite IH. simpl. now rewrite <- app_assoc.
Qed.

(** [v.split(',')[0]] is the text of [v] before its first comma. *)
Lemma split_first v : nth_error (Str.split "," v) 0 = Some (before_comma v).
Proof.
  unfold Str.split. pose proof (split_chars_first [] v) as H.
  destruct (Str.split_chars "," [] (Str.chars v)) as [|x xs]; [discriminate|].
  simpl in *. injection H as ->. unfold Str.of_chars, Str.chars.
  now rewrite string_of_list_ascii_of_string.
Qed.

(** The address of the log line is the first usable one of the three
    headers, in their order, and ["unknown"] without one. *)
Lemma client_ip_identifier c : client_ip c = client_identifier (req_header c).
Proof.
  unfold client_ip, client_identifier, or_else, truthy.
  destruct (req_header c "cf-connecting-ip") as [cf|];
    destruct (req_header c "x-forwarded-for") as [xff|];
    destruct (req_header c "x-real-ip") as [xr|];
    rewrite ?split_first; cbn [option_map first_usable];
    repeat match goal with
           | H : (?s =? "")%string = _ |- context [(?s =? "")%string] =>
               rewrite H; cbn [negb]
           | |- context [(?s =? "")%string] =>
               destruct (s =? "")%string eqn:?; cbn [negb]
           end;
    reflexivity.
Qed.

Lemma app_one_neq (A : Type) (l : list A) x : l ++ [x] <> l.
Proof.
  intros H. apply (f_equal (@List.length A)) in H.
  rewrite length_app in H. simpl in H. lia.
Qed.

(** C7: the console grows by at most the one line of the request, and it
    grows exactly when the request is blocked and the option [log] is not
    [false]: with [log: false] nothing is logged, and with [log: true] or
    without the option every blocked request is.  The line has the method
    of the request, the path the handler tested and the address; the
    address is the first usable value among the [cf-connecting-ip] header,
    the first comma-separated value of [x-forwarded-for] and the
    [x-real-ip] header, and ["unknown"] when no header is present.  The
    answer to the request does not depend on the headers. *)
Theorem C7_log_line_and_headers t path_of options c w :
  let res := honeypot t path_of options c w in
  let line :=
    mkLogLine (client_identifier (req_header c)) (req_method c)
              (path_of (req_path c)) in
  (console (snd res) = console w \/ console (snd res) = console w ++ [line]) /\
  (console (snd res) = console w ++ [line] <->
   fst res <> next /\ opt_log options <> Some false) /\
  (opt_log options = Some false -> console (snd res) = console w) /\
  (fst res = next -> console (snd res) = console w) /\
  ((forall name, req_header c name = None) ->
   ll_ip line = "unknown"%string) /\
  (forall h',
     fst (honeypot t path_of options
            (mkContext (req_path c) (req_method c) h') w) = fst res).
Proof.
  intros res line.
  assert (Hline : log_line path_of c = line).
  { unfold log_line, line. now rewrite client_ip_identifier. }
  assert (Hlog : shouldLog options = true <-> opt_log options <> Some false).
  { unfold shouldLog. destruct (opt_log options) as [[|]|]; split;
      congruence. }
  pose proof (honeypot_exits t path_of options c w) as Hex.
  cbv zeta in Hex. fold res in Hex. rewrite Hline in Hex.
  split; [|split; [|split; [|split; [|split]]]].
  - destruct Hex as [[_ Hc]|[_ Hc]]; [now left|].
    destruct (shouldLog options); [now right|left].
    now rewrite Hc, app_nil_r.
  - rewrite <- Hlog. split.
    + intros Hc. destruct Hex as [[_ Hc']|[Hb Hc']].
      * rewrite Hc' in Hc. symmetry in Hc. now apply app_one_neq in Hc.
      * split; [rewrite Hb; discriminate|].
        destruct (shouldLog options); [reflexivity|].
        rewrite Hc', app_nil_r in Hc. symmetry in Hc.
        now apply app_one_neq in Hc.
    + intros [Hn Hl]. destruct Hex as [[Hb _]|[_ Hc]]; [contradiction|].
      now rewrite Hl in Hc.
  - intros Hfalse. destruct Hex as [[_ Hc]|[_ Hc]]; [exact Hc|].
    unfold shouldLog in Hc. rewrite Hfalse in Hc. now rewrite Hc, app_nil_r.
  - intros Hn. destruct Hex as [[_ Hc]|[Hb _]]; [exact Hc|].
    rewrite Hb in Hn. discriminate.
  - intros Hnone. unfold line. simpl.
    unfold client_identifier. now rewrite !Hnone.
  - intros h'. unfold res. destruct c as [p mth h]; simpl.
    apply (honeypot_headers t path_of options p mth h' h w).
Qed.

(** ** Determinism *)

(** [test] reads the world at the [lastIndex] of its own signature, and
    only when the signature is global or sticky. *)
Lemma test_agree r str w1 w2 :
  (stateful r = true -> lastIndex w1 (ref r) = lastIndex w2 (ref r)) ->
  fst (test r str w1) = fst (test r str w2) /\
  forall l, lastIndex w1 l = lastIndex w2 l ->
            lastIndex (snd (test r str w1)) l
            = lastIndex (snd (test r str w2)) l.
Proof.
  intros Hr. unfold test, bind, tick, ret, set_lastIndex; simpl.
  destruct (Regex.parse (source r)) as [p|]; [|now split].
  destruct (stateful r); [|now split].
  simpl. rewrite <- (Hr eq_refl).
  destruct (exec_from r p str (lastIndex w1 (ref r))) as [[b e]|]; simpl;
    (split; [reflexivity|]); intros l Hl; now destruct (l =? ref r).
Qed.

Lemma some_test_agree path l w1 w2 :
  (forall r, In r l -> stateful r = true ->
             lastIndex w1 (ref r) = lastIndex w2 (ref r)) ->
  fst (some (fun p => test p path) l w1)
  = fst (some (fun p => test p path) l w2).
Proof.
  revert w1 w2; induction l as [|r l IH]; intros w1 w2 Hl; [reflexivity|].
  cbn [some]. unfold bind.
  destruct (test_agree r path w1 w2 (Hl r (or_introl eq_refl))) as [Hb Hw].
  destruct (test r path w1) as [b1 w1'], (test r path w2) as [b2 w2'].
  simpl in Hb, Hw. subst b2. destruct b1; [reflexivity|].
  apply IH. intros q Hq Hs. apply Hw, Hl; auto. now right.
Qed.

(** Two invocations with the same options and the same request give the
    same answer when every global or sticky signature of the rule list
    has the same [lastIndex] at both. *)
Lemma same_lastIndex_same_decision t path_of options c w1 w2 :
  (forall r, In r (patterns t options) -> stateful r = true ->
             lastIndex w1 (ref r) = lastIndex w2 (ref r)) ->
  fst (honeypot t path_of options c w1)
  = fst (honeypot t path_of options c w2).
Proof.
  intros H. rewrite !honeypot_fst.
  now rewrite (some_test_agree (path_of (req_path c)) (patterns t options)
                 w1 w2 H).
Qed.

(** C8: one middleware, one request, two answers.  The configuration that
    adds [/^\/secret/g] answers the request [GET /secret] with 410 and the
    same request, made again, with [next()]; the third time it is 410
    again.  What differs between the invocations is the [lastIndex] the
    one before left in the signature. *)
Theorem C8_the_same_request_gets_two_answers :
  let c := get "/secret" in
  let w1 := snd (Index.honeypot options_secret_g c world0) in
  let w2 := snd (Index.honeypot options_secret_g c w1) in
  fst (Index.honeypot options_secret_g c world0) = body None 410 /\
  fst (Index.honeypot options_secret_g c w1) = next /\
  fst (Index.honeypot options_secret_g c w2) = body None 410 /\
  lastIndex world0 (ref secret_g) = 0 /\
  lastIndex w1 (ref secret_g) = 7 /\
  lastIndex w2 (ref secret_g) = 0.
Proof. vm_compute. repeat split. Qed.

(** ** Letter case of the path *)

Lemma chars_upcase p : Str.chars (upcase p) = map Str.upper (Str.chars p).
Proof. induction p as [|c p IH]; simpl; [reflexivity|]. now f_equal. Qed.

Lemma upcase_of_chars l :
  upcase (Str.of_chars l) = Str.of_chars (map Str.upper l).
Proof. induction l as [|c l IH]; simpl; [reflexivity|]. now f_equal. Qed.

Lemma collapse_chars_upcase l :
  collapse_chars (map Str.upper l) = map Str.upper (collapse_chars l).
Proof.
  induction l as [|c l IH]; [reflexivity|].
  cbn [map collapse_chars]. unfold is_slash at 1. rewrite is_slash_upcase.
  fold (is_slash c).
  replace (starts_with_slash (map Str.upper l)) with (starts_with_slash l).
  - destruct (is_slash c && starts_with_slash l); [exact IH|].
    cbn [map]. now f_equal.
  - destruct l as [|d l]; [reflexivity|]. cbn [map starts_with_slash].
    unfold is_slash. now rewrite is_slash_upcase.
Qed.

(** Collapsing the slashes and changing the case commute. *)
Lemma collapse_slashes_case p q :
  same_up_to_case p q ->
  same_up_to_case (collapse_slashes p) (collapse_slashes q).
Proof.
  unfold same_up_to_case, collapse_slashes. intros H.
  rewrite !upcase_of_chars, <- !collapse_chars_upcase, <- !chars_upcase.
  now rewrite H.
Qed.

Lemma existsb_ext_in (f g : RegExp -> bool) l :
  (forall r, In r l -> f r = g r) -> existsb f l = existsb g l.
Proof.
  induction l as [|r l IH]; intros H; simpl; [reflexivity|].
  rewrite (H r) by now left. rewrite IH; auto.
  intros q Hq. apply H. now right.
Qed.

Lemma case_blind_by_table t path_of :
  builtin_table t = true ->
  (forall p q, same_up_to_case p q ->
               same_up_to_case (path_of p) (path_of q)) ->
  case_blind (honeypot t path_of).
Proof.
  intros Ht Hp p q mth h w Hpq.
  assert (Hs : forall r, In r (patterns t no_options) -> stateful r = false).
  { apply patterns_stateless; [exact Ht|]. simpl. intros r []. }
  rewrite !honeypot_stateless by exact Hs. cbv zeta. simpl req_path.
  rewrite (existsb_ext_in
             (fun r => matches r (path_of p))
             (fun r => matches r (path_of q))).
  - now destruct (existsb _ _).
  - intros r Hr. apply matches_fold; [|now apply Hp].
    apply (builtin_table_ignoreCase t Ht).
    apply in_patterns in Hr. destruct Hr as [Hr _].
    apply in_app_or in Hr. destruct Hr as [Hr|[]]. exact Hr.
Qed.

(** [toLowerCase] changes the case of letters in place. *)
Lemma toLowerCase_case p : same_up_to_case (Str.toLowerCase p) p.
Proof.
  unfold same_up_to_case, Str.toLowerCase, Str.of_chars, Str.chars.
  induction p as [|a p IH]; simpl; [reflexivity|].
  now rewrite upcase_downcase, IH.
Qed.

Lemma upper_units_upper c :
  c <> sharp_s ->
  forallb (fun u => u <? 256) (Str.upper_units c) = true ->
  map ascii_of_nat (Str.upper_units c) = [Str.upper c].
Proof.
  destruct c as [[] [] [] [] [] [] [] []]; intros Hc Hu;
    first [ reflexivity
          | discriminate Hu
          | exfalso; apply Hc; reflexivity ].
Qed.

Lemma upper_units_map l :
  ~ In sharp_s l ->
  forallb (fun u => u <? 256) (flat_map Str.upper_units l) = true ->
  map ascii_of_nat (flat_map Str.upper_units l) = map Str.upper l.
Proof.
  induction l as [|c l IH]; intros Hn Hu; [reflexivity|].
  cbn [flat_map map] in *. rewrite forallb_app in Hu.
  apply andb_true_iff in Hu. destruct Hu as [Hc Hl].
  rewrite map_app, upper_units_upper, IH; try assumption.
  - reflexivity.
  - intros H. apply Hn. now right.
  - intros ->. apply Hn. now left.
Qed.

(** So does [toUpperCase] on a string without a sharp s, when its result
    is a string of the model. *)
Lemma toUpperCase_case p u :
  Str.toUpperCase p = Some u -> ~ In sharp_s (Str.chars p) ->
  same_up_to_case u p.
Proof.
  unfold Str.toUpperCase. intros H Hn.
  destruct (forallb _ _) eqn:Hu; [|discriminate]. injection H as <-.
  rewrite (upper_units_map _ Hn Hu).
  rewrite <- upcase_of_chars. unfold Str.of_chars, Str.chars.
  rewrite string_of_list_ascii_of_string. apply same_up_to_case_upcase.
Qed.

(** C9, as stated, fails: [toUpperCase] writes the sharp s of [/wordpre]
    followed by a sharp s as [SS], and the path, which the default
    configuration passes on, becomes [/WORDPRESS], which it blocks. *)
Lemma C9_sharp_s_changes_the_answer :
  Str.toUpperCase wordpress_sharp_s = Some "/WORDPRESS"%string /\
  fst (Index.honeypot no_options (get wordpress_sharp_s) world0) = next /\
  fst (Index.honeypot no_options (get "/WORDPRESS") world0) = body None 410 /\
  fst (Part003.honeypot no_options (get wordpress_sharp_s) world0) = next /\
  fst (Part003.honeypot no_options (get "/WORDPRESS") world0) = body None 410.
Proof. vm_compute. repeat split. Qed.

(** C9 (amended): every built-in signature of the three tables carries the
    [i] flag, and under the default configuration two paths that differ
    only in the case of letters changed in place get the same answer; so
    do a path and its [toLowerCase], and a path without a sharp s and its
    [toUpperCase]. *)
Theorem C9_case_of_the_path :
  (forallb ignoreCase Index.ATTACK_PATTERNS
   && forallb ignoreCase Part002.ATTACK_PATTERNS
   && forallb ignoreCase Part003.ATTACK_PATTERNS = true) /\
  case_blind Index.honeypot /\
  case_blind Part002.honeypot /\
  case_blind Part003.honeypot /\
  (forall mw p,
     In mw [Index.honeypot; Part002.honeypot; Part003.honeypot] ->
     same_decision mw (Str.toLowerCase p) p) /\
  (forall mw p u,
     In mw [Index.honeypot; Part002.honeypot; Part003.honeypot] ->
     Str.toUpperCase p = Some u -> ~ In sharp_s (Str.chars p) ->
     same_decision mw u p).
Proof.
  assert (H1 : case_blind Index.honeypot)
    by (apply case_blind_by_table; [apply Index_table|trivial]).
  assert (H2 : case_blind Part002.honeypot)
    by (apply case_blind_by_table; [apply Part002_table|trivial]).
  assert (H3 : case_blind Part003.honeypot).
  { apply case_blind_by_table; [apply Part003_table|].
    intros p q Hpq. rewrite !normalize_collapse.
    now apply collapse_slashes_case. }
  assert (Hall : forall mw,
            In mw [Index.honeypot; Part002.honeypot; Part003.honeypot] ->
            case_blind mw)
    by (intros mw [<-|[<-|[<-|[]]]]; assumption).
  split; [vm_compute; reflexivity|]. repeat split; try assumption.
  - intros mw p Hmw mth h w. apply (Hall mw Hmw), toLowerCase_case.
  - intros mw p u Hmw Hu Hn mth h w.
    apply (Hall mw Hmw). now apply toUpperCase_case.
Qed.

(** C9 on [/ADMIN] and [/admin], and on [/WP-LOGIN.PHP] and
    [/wp-login.php], each the other in the other case, in src/index.ts. *)
Lemma C9_case_of_the_path_witness :
  fst (Index.honeypot no_options (get "/ADMIN") world0)
  = fst (Index.honeypot no_options (get "/admin") world0) /\
  Str.toLowerCase "/WP-LOGIN.PHP" = "/wp-login.php"%string /\
  fst (Index.honeypot no_options (get "/wp-login.php") world0)
  = fst (Index.honeypot no_options (get "/WP-LOGIN.PHP") world0) /\
  Str.toUpperCase "/wp-login.php" = Some "/WP-LOGIN.PHP"%string /\
  fst (Index.honeypot no_options (get "/WP-LOGIN.PHP") world0)
  = fst (Index.honeypot no_options (get "/wp-login.php") world0).
Proof.
  destruct C9_case_of_the_path as [_ [Hblind [_ [_ [Hlow Hup]]]]].
  split; [|split; [|split; [|split]]].
  - apply Hblind. reflexivity.
  - reflexivity.
  - apply (Hlow Index.honeypot "/WP-LOGIN.PHP"%string). now left.
  - reflexivity.
  - apply (Hup Index.honeypot "/wp-login.php"%string); [now left|reflexivity|].
    vm_compute. intuition discriminate.
Defined.

(** ** The test files *)

(** The sources of the three tables are in the fragment of the parser. *)
Lemma tables_parse :
  parses Index.ATTACK_PATTERNS && parses Part002.ATTACK_PATTERNS
  && parses Part003.ATTACK_PATTERNS = true.
Proof. vm_compute. reflexivity. Qed.

(** The expectations of the first test file hold for the three snapshots:
    the ten of the default configuration, the added signature
    [/^\/secret/i], the status 403, and the exclusion of
    [/^\/admin(\.php)?$/i]. *)
Theorem first_test_file_passes mw :
  In mw [Index.honeypot; Part002.honeypot; Part003.honeypot] ->
  meets mw expectations_part_001 /\
  answer mw quiet "/secret" = next /\
  answer mw options_custom_pattern "/secret" = body None 410 /\
  answer mw options_status_403 "/wp-admin" = body None 403 /\
  answer mw options_exclude_admin "/admin" = next /\
  answer mw options_exclude_admin "/phpmyadmin" = body None 410.
Proof.
  intros [<-|[<-|[<-|[]]]]; repeat split; vm_compute; reflexivity.
Qed.

Lemma first_test_file_passes_witness :
  meets Index.honeypot expectations_part_001 /\
  answer Index.honeypot options_custom_pattern "/secret" = body None 410.
Proof.
  destruct (@first_test_file_passes Index.honeypot (or_introl eq_refl))
    as [H1 [_ [H2 _]]].
  split; assumption.
Defined.

(** The expectations of the later test file hold for the third snapshot;
    its three requests with doubled slashes are answered [next()] by the
    first two. *)
Theorem later_test_file_passes_on_the_third_snapshot :
  meets Part003.honeypot expectations_part_000 /\
  map (answer Index.honeypot quiet) ["//blog"; "///admin"]%string
  = [next; next] /\
  map (answer Part002.honeypot quiet) ["//blog"; "///admin"]%string
  = [next; next].
Proof. repeat split; vm_compute; reflexivity. Qed.

(** [rawPath.replace(/\/+/g, '/')] collapses every run of slashes into one
    slash, and collapsing is idempotent. *)
Theorem normalize_collapses_every_run rawPath :
  Part003.normalize rawPath = collapse_slashes rawPath /\
  Part003.normalize (Part003.normalize rawPath) = Part003.normalize rawPath.
Proof.
  split; [apply normalize_collapse|].
  rewrite !normalize_collapse. apply collapse_slashes_idem.
Qed.

(** ** The normalised path *)

Lemma starts_with_slash_collapse l :
  starts_with_slash (collapse_chars l) = starts_with_slash l.
Proof.
  induction l as [|c l IH]; [reflexivity|]. cbn [collapse_chars].
  destruct (is_slash c && starts_with_slash l) eqn:Hc; [|reflexivity].
  apply andb_true_iff in Hc. destruct Hc as [Hc Hl].
  rewrite IH, Hl. cbn [starts_with_slash]. now rewrite Hc.
Qed.

Lemma no_slash_run_collapse l : no_slash_run (collapse_chars l) = true.
Proof.
  induction l as [|c l IH]; [reflexivity|]. cbn [collapse_chars].
  destruct (is_slash c && starts_with_slash l) eqn:Hc; [exact IH|].
  cbn [no_slash_run]. now rewrite starts_with_slash_collapse, Hc, IH.
Qed.

Lemma collapse_fixes l : collapse_chars l = l <-> no_slash_run l = true.
Proof.
  split.
  - intros H. rewrite <- H. apply no_slash_run_collapse.
  - induction l as [|c l IH]; [reflexivity|]. cbn [no_slash_run collapse_chars].
    intros H. apply andb_true_iff in H. destruct H as [Hc Hl].
    apply negb_true_iff in Hc. rewrite Hc. now rewrite IH.
Qed.

Lemma collapse_length l : List.length (collapse_chars l) <= List.length l.
Proof.
  induction l as [|c l IH]; [reflexivity|]. cbn [collapse_chars].
  destruct (is_slash c && starts_with_slash l); simpl; lia.
Qed.

Lemma collapse_without_slashes l :
  without_slashes (collapse_chars l) = without_slashes l.
Proof.
  unfold without_slashes.
  induction l as [|c l IH]; [reflexivity|]. cbn [collapse_chars].
  destruct (is_slash c && starts_with_slash l) eqn:Hc.
  - apply andb_true_iff in Hc. destruct Hc as [Hc _].
    cbn [filter]. now rewrite Hc, IH.
  - cbn [filter]. now rewrite IH.
Qed.

Lemma chars_of_chars l : Str.chars (Str.of_chars l) = l.
Proof. apply list_ascii_of_string_of_list_ascii. Qed.

Lemma of_chars_chars s : Str.of_chars (Str.chars s) = s.
Proof. apply string_of_list_ascii_of_string. Qed.

(** The path the handler of the third snapshot tests has no slash followed
    by a slash, is no longer than the path received, has the same code
    units other than slashes in the same order, starts with a slash if and
    only if the path received does, and is the path received if and only if
    that one has no slash followed by a slash. *)
Theorem normalize_invariants rawPath :
  let path := Part003.normalize rawPath in
  no_slash_run (Str.chars path) = true /\
  String.length path <= String.length rawPath /\
  without_slashes (Str.chars path) = without_slashes (Str.chars rawPath) /\
  starts_with_slash (Str.chars path) = starts_with_slash (Str.chars rawPath) /\
  (path = rawPath <-> no_slash_run (Str.chars rawPath) = true).
Proof.
  cbv zeta. rewrite normalize_collapse. unfold collapse_slashes.
  rewrite chars_of_chars. repeat split.
  - apply no_slash_run_collapse.
  - rewrite <- !chars_length, chars_of_chars. apply collapse_length.
  - apply collapse_without_slashes.
  - apply starts_with_slash_collapse.
  - intros H. apply collapse_fixes.
    rewrite <- H at 2. now rewrite chars_of_chars.
  - intros H. apply collapse_fixes in H. rewrite H. apply of_chars_chars.
Qed.

(** ** Requests that differ in their runs of slashes *)

(** In the third snapshot two request paths that collapse to the same path
    are answered alike and leave the same world, in every configuration
    and every world. *)
Theorem Part003_bypass_resistance options p q mth h w :
  collapse_slashes p = collapse_slashes q ->
  Part003.honeypot options (mkContext p mth h) w
  = Part003.honeypot options (mkContext q mth h) w.
Proof.
  intros H. unfold Part003.honeypot, honeypot; simpl.
  now rewrite !normalize_collapse, H.
Qed.

Lemma Part003_bypass_resistance_witness :
  Part003.honeypot no_options (get "//blog") world0
  = Part003.honeypot no_options (get "/blog") world0.
Proof.
  apply (@Part003_bypass_resistance no_options "//blog" "/blog").
  vm_compute. reflexivity.
Defined.

(** ** Growing the rule list *)

Lemma some_prefix path l l' w :
  fst (some (fun p => test p path) l w) = true ->
  fst (some (fun p => test p path) (l ++ l') w) = true.
Proof.
  revert w; induction l as [|r l IH]; intros w; [discriminate|].
  cbn [some app]. unfold bind. destruct (test r path w) as [b w1].
  destruct b; [reflexivity|]. apply IH.
Qed.

Lemma honeypot_blocked_iff t path_of options c w :
  fst (honeypot t path_of options c w) = blocked options <->
  fst (some (fun p => test p (path_of (req_path c))) (patterns t options) w)
  = true.
Proof.
  rewrite honeypot_fst. unfold blocked.
  destruct (fst (some _ _ w)); split; intros H; try reflexivity; discriminate.
Qed.

(** Signatures added behind the additions of a configuration unblock
    nothing: a request blocked before is blocked after, in the same world,
    whatever the flags of the signatures involved. *)
Theorem more_patterns_unblock_nothing t path_of options more c w :
  fst (honeypot t path_of options c w) = blocked options ->
  fst (honeypot t path_of (with_more_patterns options more) c w)
  = blocked (with_more_patterns options more).
Proof.
  rewrite !honeypot_blocked_iff. intros H.
  replace (patterns t (with_more_patterns options more))
    with (patterns t options ++ filter (survives options) more).
  - now apply some_prefix.
  - rewrite !patterns_filter. unfold with_more_patterns, additions; simpl.
    rewrite app_assoc, !filter_app. reflexivity.
Qed.

Lemma more_patterns_unblock_nothing_witness :
  fst (Index.honeypot (with_more_patterns no_options [secret_g])
         (get "/wp-admin") world0)
  = blocked (with_more_patterns no_options [secret_g]).
Proof.
  apply (@more_patterns_unblock_nothing Index.ATTACK_PATTERNS (fun p => p)
           no_options [secret_g] (get "/wp-admin") world0).
  vm_compute. reflexivity.
Defined.

(** ** What the handler leaves alone *)

Lemma test_frame r str w l :
  (stateful r = true -> ref r <> l) ->
  lastIndex (snd (test r str w)) l = lastIndex w l.
Proof.
  intros Hl. unfold test, bind, tick, ret, set_lastIndex; simpl.
  destruct (Regex.parse (source r)) as [p|]; [|reflexivity].
  destruct (stateful r); [|reflexivity]. simpl.
  assert (Hne : (l =? ref r) = false)
    by (apply Nat.eqb_neq; intros ->; now apply Hl).
  destruct (exec_from r p str (lastIndex w (ref r))) as [[b e]|]; simpl;
    now rewrite Hne.
Qed.

Lemma test_tests r str w : tests (snd (test r str w)) = S (tests w).
Proof.
  unfold test, bind, tick, ret, set_lastIndex; simpl.
  destruct (Regex.parse (source r)) as [p|]; [|reflexivity].
  destruct (stateful r); [|reflexivity]. simpl.
  now destruct (exec_from r p str (lastIndex w (ref r))) as [[b e]|].
Qed.

Lemma some_frame path rules w l :
  (forall r, In r rules -> stateful r = true -> ref r <> l) ->
  lastIndex (snd (some (fun p => test p path) rules w)) l = lastIndex w l.
Proof.
  revert w; induction rules as [|r rules IH]; intros w Hl; [reflexivity|].
  cbn [some]. unfold bind.
  pose proof (@test_frame r path w l (Hl r (or_introl eq_refl))) as Hr.
  destruct (test r path w) as [b w1]. simpl in Hr.
  destruct b; [exact Hr|]. rewrite IH; [exact Hr|].
  intros q Hq. apply Hl. now right.
Qed.

Lemma some_tests path rules w :
  let w' := snd (some (fun p => test p path) rules w) in
  tests w <= tests w' <= tests w + List.length rules /\
  (fst (some (fun p => test p path) rules w) = false ->
   tests w' = tests w + List.length rules).
Proof.
  revert w; induction rules as [|r rules IH]; intros w; cbn [some].
  - unfold ret; simpl. split; [lia|intros _; lia].
  - unfold bind. pose proof (test_tests r path w) as Ht.
    destruct (test r path w) as [b w1]. simpl in Ht.
    destruct b; simpl.
    + split; [lia|discriminate].
    + specialize (IH w1). cbv zeta in IH. destruct IH as [IH1 IH2].
      split; [lia|]. intros Hf. rewrite (IH2 Hf). lia.
Qed.

(** The handler writes no [lastIndex] but those of the global and sticky
    signatures of its own rule list, and it calls [test] at most once per
    signature of the list: exactly once per signature when the request is
    passed on. *)
Theorem honeypot_frame t path_of options c w :
  let res := honeypot t path_of options c w in
  (forall l,
     (forall r, In r (patterns t options) -> stateful r = true -> ref r <> l) ->
     lastIndex (snd res) l = lastIndex w l) /\
  tests w <= tests (snd res) <= tests w + List.length (patterns t options) /\
  (fst res = next ->
   tests (snd res) = tests w + List.length (patterns t options)).
Proof.
  cbv zeta. unfold honeypot, bind.
  pose proof (@some_frame (path_of (req_path c)) (patterns t options) w) as Hf.
  pose proof (some_tests (path_of (req_path c)) (patterns t options) w) as Ht.
  cbv zeta in Ht.
  destruct (some _ (patterns t options) w) as [b w1]. simpl in Hf, Ht.
  destruct Ht as [Ht1 Ht2].
  destruct b.
  - destruct (shouldLog options); unfold console_log, ret; simpl;
      (split; [exact Hf|split; [exact Ht1|discriminate]]).
  - unfold ret; simpl. split; [exact Hf|]. split; [exact Ht1|].
    intros _. now apply Ht2.
Qed.

(** ** No block without a match *)

Lemma scan_found ic ml da input p n i b e :
  Regex.scan ic ml da input p n i = Some (b, e) ->
  i <= b < i + n /\ Regex.m ic ml da input p Some b = Some e.
Proof.
  revert i; induction n as [|n IH]; intros i; [discriminate|].
  cbn [Regex.scan]. destruct (Regex.m ic ml da input p Some i) as [e'|] eqn:Hm.
  - intros H. injection H as <- <-. split; [lia|exact Hm].
  - intros H. apply IH in H. destruct H as [H1 H2]. split; [lia|exact H2].
Qed.

Lemma scan_complete ic ml da input p n i b e :
  i <= b < i + n ->
  Regex.m ic ml da input p Some b = Some e ->
  Regex.scan ic ml da input p n i <> None.
Proof.
  revert i; induction n as [|n IH]; intros i Hb Hm; [lia|].
  cbn [Regex.scan]. destruct (Regex.m ic ml da input p Some i) as [e'|] eqn:Hi.
  - discriminate.
  - apply IH; [|exact Hm].
    assert (b <> i) by (intros ->; congruence). lia.
Qed.

Lemma exec_from_finds r p str li b e :
  Regex.parse (source r) = Some p ->
  exec_from r p str li = Some (b, e) ->
  finds r str.
Proof.
  intros Hp H. unfold exec_from in H. apply scan_found in H.
  destruct H as [Hb Hm]. exists p, b, e. split; [exact Hp|].
  split; [|exact Hm]. rewrite <- chars_length.
  destruct (sticky r); [|lia].
  destruct (List.length (Str.chars str) + 1 - li) eqn:E; simpl in Hb; lia.
Qed.

Lemma test_true_finds r str w : fst (test r str w) = true -> finds r str.
Proof.
  unfold test, bind, tick, ret, set_lastIndex; simpl.
  destruct (Regex.parse (source r)) as [p|] eqn:Hp; [|discriminate].
  destruct (stateful r); simpl.
  - destruct (exec_from r p str _) as [[b e]|] eqn:He; [|discriminate].
    intros _. now apply (@exec_from_finds r p str _ _ _ Hp He).
  - destruct (exec_from r p str 0) as [[b e]|] eqn:He; [|discriminate].
    intros _. now apply (@exec_from_finds r p str _ _ _ Hp He).
Qed.

Lemma some_true_finds path rules w :
  fst (some (fun p => test p path) rules w) = true ->
  exists r, In r rules /\ finds r path.
Proof.
  revert w; induction rules as [|r rules IH]; intros w; [discriminate|].
  cbn [some]. unfold bind.
  pose proof (test_true_finds r path w) as Hr.
  destruct (test r path w) as [b w1]. simpl in Hr.
  destruct b.
  - intros _. exists r. split; [now left|now apply Hr].
  - intros H. apply IH in H. destruct H as [q [Hq Hf]].
    exists q. split; [now right|exact Hf].
Qed.

(** For a signature that is not sticky, finding a match from some start
    index is matching. *)
Lemma finds_matches r path :
  sticky r = false -> (finds r path <-> matches r path = true).
Proof.
  intros Hs. unfold matches, exec_from. rewrite Hs. split.
  - intros (p & b & e & Hp & Hb & Hm). rewrite Hp.
    destruct (Regex.scan _ _ _ _ p _ 0) eqn:Hsc; [reflexivity|].
    exfalso. revert Hsc. apply (@scan_complete _ _ _ _ _ _ _ b e); [|exact Hm].
    rewrite chars_length. lia.
  - destruct (Regex.parse (source r)) as [p|] eqn:Hp; [|discriminate].
    destruct (Regex.scan _ _ _ _ p _ 0) as [[b e]|] eqn:Hsc; [|discriminate].
    intros _. apply scan_found in Hsc. destruct Hsc as [Hb Hm].
    exists p, b, e. split; [exact Hp|]. split; [|exact Hm].
    rewrite <- chars_length. lia.
Qed.

(** For a rule list of signatures of the modelled engine, in every world:
    a request is blocked only if a signature of the rule list finds a match
    in the path the handler tests; when that signature is not sticky, it
    matches the path. *)
Theorem no_block_without_a_match t path_of options c w :
  modelled (patterns t options) = true ->
  fst (honeypot t path_of options c w) <> next ->
  exists r,
    In r (patterns t options) /\
    in_fragment r = true /\
    finds r (path_of (req_path c)) /\
    (sticky r = false -> matches r (path_of (req_path c)) = true).
Proof.
  intros Hmod. rewrite honeypot_fst.
  destruct (fst (some _ _ w)) eqn:Hs; [|intros H; now elim H].
  intros _. apply some_true_finds in Hs. destruct Hs as [r [Hr Hf]].
  exists r. split; [exact Hr|]. split; [|split; [exact Hf|]].
  - unfold modelled in Hmod. rewrite forallb_forall in Hmod. now apply Hmod.
  - intros Hst. now apply finds_matches.
Qed.

Lemma no_block_without_a_match_witness :
  exists r,
    In r (patterns Index.ATTACK_PATTERNS options_secret_g) /\
    in_fragment r = true /\
    finds r "/secret" /\
    (sticky r = false -> matches r "/secret" = true).
Proof.
  apply (@no_block_without_a_match Index.ATTACK_PATTERNS (fun p => p)
           options_secret_g (get "/secret") world0).
  - vm_compute. reflexivity.
  - vm_compute. discriminate.
Defined.

(** ** From one snapshot to the next *)

Lemma matches_source_flags r1 r2 path :
  source r1 = source r2 -> flags r1 = flags r2 ->
  matches r1 path = matches r2 path.
Proof.
  intros Hs Hf. unfold matches, exec_from, ignoreCase, multiline, dotAll,
    sticky, has_flag. now rewrite Hs, Hf.
Qed.

Lemma survives_source options r1 r2 :
  source r1 = source r2 -> survives options r1 = survives options r2.
Proof. intros Hs. unfold survives. now rewrite Hs. Qed.

(** Behind stateless signatures the rest of the list is tested as if it
    stood alone. *)
Lemma some_app_stateless path l1 l2 w :
  (forall r, In r l1 -> stateful r = false) ->
  fst (some (fun p => test p path) (l1 ++ l2) w)
  = existsb (fun r => matches r path) l1
    || fst (some (fun p => test p path) l2 w).
Proof.
  revert w; induction l1 as [|r l1 IH]; intros w Hl; [reflexivity|].
  cbn [app some existsb]. unfold bind.
  rewrite test_stateless by (apply Hl; now left).
  destruct (matches r path); [reflexivity|]. cbn [orb].
  rewrite IH by (intros q Hq; apply Hl; now right). f_equal.
  apply some_test_agree. reflexivity.
Qed.

Lemma blocked_by_table t path_of options c w :
  (forall r, In r t -> stateful r = false) ->
  fst (honeypot t path_of options c w) = blocked options <->
  existsb (fun r => matches r (path_of (req_path c)))
          (filter (survives options) t)
  || fst (some (fun p => test p (path_of (req_path c)))
               (filter (survives options) (additions options)) w) = true.
Proof.
  intros Ht. rewrite honeypot_blocked_iff, patterns_filter, filter_app.
  rewrite some_app_stateless; [reflexivity|].
  intros r Hr. apply filter_In in Hr. now apply Ht.
Qed.

Lemma table_included_blocks t1 t2 path_of options c w :
  table_included t1 t2 = true ->
  (forall r, In r t1 -> stateful r = false) ->
  (forall r, In r t2 -> stateful r = false) ->
  fst (honeypot t1 path_of options c w) = blocked options ->
  fst (honeypot t2 path_of options c w) = blocked options.
Proof.
  intros Hinc H1 H2. rewrite !blocked_by_table by assumption.
  intros H. apply orb_true_iff in H. apply orb_true_iff.
  destruct H as [H|H]; [left|now right].
  apply existsb_exists in H. destruct H as [r1 [Hr1 Hm]].
  apply filter_In in Hr1. destruct Hr1 as [Hin Hsv].
  unfold table_included in Hinc. rewrite forallb_forall in Hinc.
  specialize (Hinc r1 Hin). apply existsb_exists in Hinc.
  destruct Hinc as [r2 [Hin2 Heq]]. apply andb_true_iff in Heq.
  destruct Heq as [Hs Hf]. apply String.eqb_eq in Hs, Hf.
  apply existsb_exists. exists r2. split.
  - apply filter_In. split; [exact Hin2|].
    now rewrite <- (@survives_source options r1 r2 Hs).
  - rewrite <- (@matches_source_flags r1 r2 (path_of (req_path c)) Hs Hf). exact Hm.
Qed.

Lemma honeypot_path_of t pf1 pf2 options c w :
  pf1 (req_path c) = pf2 (req_path c) ->
  honeypot t pf1 options c w = honeypot t pf2 options c w.
Proof. intros H. unfold honeypot. now rewrite H. Qed.

Lemma tables_grow :
  table_included Index.ATTACK_PATTERNS Part002.ATTACK_PATTERNS
  && table_included Part002.ATTACK_PATTERNS Part003.ATTACK_PATTERNS = true.
Proof. vm_compute. reflexivity. Qed.

(** Every signature of a table is in the table of the next snapshot, and a
    later snapshot unblocks nothing: in every configuration and every
    world, a request that src/index.ts blocks is blocked by the second
    snapshot, and a request that the second snapshot blocks is blocked by
    the third when its path has no run of slashes. *)
Theorem later_snapshots_unblock_nothing options c w :
  (fst (Index.honeypot options c w) = blocked options ->
   fst (Part002.honeypot options c w) = blocked options) /\
  (collapse_slashes (req_path c) = req_path c ->
   fst (Part002.honeypot options c w) = blocked options ->
   fst (Part003.honeypot options c w) = blocked options).
Proof.
  pose proof tables_grow as Hg. apply andb_true_iff in Hg.
  destruct Hg as [H12 H23]. split.
  - apply table_included_blocks; [exact H12| |];
      apply builtin_table_stateless; [apply Index_table|apply Part002_table].
  - intros Hp H. unfold Part003.honeypot.
    rewrite (@honeypot_path_of _ Part003.normalize (fun p => p));
      [|now rewrite normalize_collapse].
    revert H. apply table_included_blocks; [exact H23| |];
      apply builtin_table_stateless; [apply Part002_table|apply Part003_table].
Qed.

Lemma later_snapshots_unblock_nothing_witness :
  fst (Part002.honeypot quiet (get "/backup.zip") world0) = blocked quiet /\
  fst (Part003.honeypot quiet (get "/backup.zip") world0) = blocked quiet.
Proof.
  destruct (later_snapshots_unblock_nothing quiet (get "/backup.zip") world0)
    as [H12 H23].
  assert (H2 : fst (Part002.honeypot quiet (get "/backup.zip") world0)
               = blocked quiet)
    by (apply H12; vm_compute; reflexivity).
  split; [exact H2|]. apply H23; [vm_compute; reflexivity|exact H2].
Defined.

(** ** More exclusions, fewer blocks *)





(** ** How many built-ins an exclusion list removes *)

Lemma distinct_NoDup l : distinct l = true -> NoDup l.
Proof.
  induction l as [|s l IH]; intros H; [constructor|].
  cbn [distinct] in H. apply andb_true_iff in H. destruct H as [Hn Hd].
  constructor; [|now apply IH].
  intros Hin. apply negb_true_iff in Hn.
  assert (existsb (String.eqb s) l = true).
  { apply existsb_exists. exists s. split; [exact Hin|apply String.eqb_refl]. }
  congruence.
Qed.

Lemma NoDup_map_filter (f : RegExp -> bool) l :
  NoDup (map source l) -> NoDup (map source (filter f l)).
Proof.
  induction l as [|r l IH]; intros H; [constructor|].
  cbn [map] in H. inversion H as [|x xs Hnot Hnd]; subst.
  cbn [filter]. destruct (f r); [|now apply IH].
  cbn [map]. constructor; [|now apply IH].
  intros Hin. apply Hnot. apply in_map_iff in Hin.
  destruct Hin as [q [Hq Hin]]. apply filter_In in Hin.
  apply in_map_iff. exists q. tauto.
Qed.

Lemma filter_partition_length (f : RegExp -> bool) l :
  List.length l
  = List.length (filter f l) + List.length (filter (fun r => negb (f r)) l).
Proof.
  induction l as [|r l IH]; [reflexivity|]. cbn [filter].
  destruct (f r); simpl; lia.
Qed.

Lemma removed_at_most t options :
  NoDup (map source t) ->
  List.length t
  <= List.length (filter (survives options) t)
     + List.length (exclusions options).
Proof.
  intros Hnd. rewrite (filter_partition_length (survives options) t).
  apply Nat.add_le_mono_l.
  rewrite <- (length_map source (filter _ t)),
          <- (length_map source (exclusions options)).
  apply NoDup_incl_length; [now apply NoDup_map_filter|].
  intros s Hs. apply in_map_iff in Hs. destruct Hs as [r [<- Hr]].
  apply filter_In in Hr. destruct Hr as [_ Hr]. apply negb_true_iff in Hr.
  apply removed_iff in Hr. destruct Hr as [e [He Hse]].
  apply in_map_iff. exists e. auto.
Qed.

(** No two signatures of a table have the same source text, so that an
    exclusion list removes no more built-in signatures than it has
    entries: the rule list holds all but that many built-ins, besides the
    additions that survive. *)
Theorem exclusions_remove_at_most_their_number t options :
  In t [Index.ATTACK_PATTERNS; Part002.ATTACK_PATTERNS;
        Part003.ATTACK_PATTERNS] ->
  NoDup (map source t) /\
  List.length t + List.length (filter (survives options) (additions options))
  <= List.length (patterns t options) + List.length (exclusions options).
Proof.
  intros Ht.
  assert (Hnd : NoDup (map source t)).
  { destruct Ht as [<-|[<-|[<-|[]]]]; apply distinct_NoDup;
      vm_compute; reflexivity. }
  split; [exact Hnd|].
  rewrite patterns_filter, filter_app, length_app.
  pose proof (removed_at_most t options Hnd). lia.
Qed.

Lemma exclusions_remove_at_most_their_number_witness :
  List.length Index.ATTACK_PATTERNS + 0
  <= List.length (patterns Index.ATTACK_PATTERNS options_without_years) + 1.
Proof.
  exact (proj2 (@exclusions_remove_at_most_their_number Index.ATTACK_PATTERNS
                  options_without_years (or_introl eq_refl))).
Defined.

(** ** Requests in sequence *)




(** ** The anchoring of a signature *)

Lemma literal_of_word_pattern r w e :
  literal_of r = Some (w, e) -> r = word_pattern w e.
Proof.
  revert w e. induction r as [| | | | | | r1 _ r2 IH2 | | | | | | |];
    intros w e H;
    try discriminate.
  - simpl in H. injection H as <- <-. reflexivity.
  - destruct r1; try discriminate.
    + simpl in H. destruct (literal_of r2) as [[w' e']|]; [|discriminate].
      injection H as <- <-. simpl. f_equal. now apply IH2.
    + destruct r2; try discriminate. simpl in H. injection H as <- <-.
      reflexivity.
Qed.

Lemma at_line_end_single input j :
  Regex.at_line_end false input j = (j =? List.length input).
Proof.
  unfold Regex.at_line_end. destruct (nth_error input j) eqn:Hn; [|reflexivity].
  simpl. symmetry. apply Nat.eqb_neq.
  assert (j < List.length input) by (apply nth_error_Some; congruence). lia.
Qed.

Lemma m_word_pattern da input w e i :
  Regex.m true false da input (word_pattern w e) Some i
  = if has_at input i w
    then if e
         then if i + List.length w =? List.length input
              then Some (i + List.length w) else None
         else Some (i + List.length w)
    else None.
Proof.
  revert i; induction w as [|c w IH]; intros i.
  - cbn [word_pattern has_at List.length]. rewrite Nat.add_0_r.
    destruct e; [|reflexivity].
    cbn [Regex.m]. now rewrite at_line_end_single.
  - cbn [word_pattern has_at Regex.m List.length]. unfold Regex.char_at.
    destruct (nth_error input i) as [d|]; [|reflexivity].
    unfold Regex.canonicalize.
    destruct (Ascii.eqb (Str.upper d) (Str.upper c)); [|reflexivity].
    cbn [andb].
    replace (i + S (List.length w)) with (S i + List.length w) by lia.
    rewrite <- IH. reflexivity.
Qed.

Lemma has_at_firstn input i w :
  has_at input i w = true <->
  Forall2 fold_eq (firstn (List.length w) (skipn i input)) w.
Proof.
  revert i; induction w as [|c w IH]; intros i; cbn [has_at List.length].
  - split; [constructor|reflexivity].
  - destruct (nth_error input i) as [d|] eqn:Hn.
    + rewrite (skipn_nth_error _ _ Hn). cbn [firstn].
      rewrite andb_true_iff, IH, Ascii.eqb_eq. split.
      * intros [Hd Hw]. now constructor.
      * intros H. inversion H; subst. split; assumption.
    + rewrite (skipn_nth_error_none _ _ Hn). cbn [firstn].
      split; [discriminate|]. intros H. inversion H.
Qed.

(** [w] at index [i] of the input is a factor of the input behind [i] code
    units. *)
Lemma has_at_factor input i w :
  i <= List.length input ->
  has_at input i w = true <->
  exists pre x post,
    input = pre ++ x ++ post /\ List.length pre = i /\ Forall2 fold_eq x w.
Proof.
  intros Hi. rewrite has_at_firstn. split.
  - intros H. exists (firstn i input),
      (firstn (List.length w) (skipn i input)),
      (skipn (List.length w) (skipn i input)).
    split; [now rewrite !firstn_skipn|]. split; [|exact H].
    rewrite length_firstn. lia.
  - intros (pre & x & post & -> & <- & Hx).
    rewrite skipn_app, Nat.sub_diag, skipn_all, skipn_O, app_nil_l.
    assert (Hl : List.length x = List.length w).
    { clear - Hx. induction Hx; simpl; congruence. }
    rewrite firstn_app, <- Hl, Nat.sub_diag, firstn_all, firstn_O, app_nil_r.
    exact Hx.
Qed.

Lemma Forall2_fold_length x w :
  Forall2 fold_eq x w -> List.length x = List.length w.
Proof. induction 1; simpl; congruence. Qed.

Lemma anchoring_cases p a w :
  anchoring p = Some (a, w) ->
  (exists e, p = Regex.Seq Regex.LineStart (word_pattern w e) /\
             a = (if e then Exact else Prefix)) \/
  (exists e, p = word_pattern w e /\ a = (if e then Suffix else Anywhere)).
Proof.
  unfold anchoring. intros Ha.
  assert (Hgen : forall q,
            match literal_of q with
            | Some (w0, true) => Some (Suffix, w0)
            | Some (w0, false) => Some (Anywhere, w0)
            | None => None
            end = Some (a, w) ->
            exists e, q = word_pattern w e /\
                      a = (if e then Suffix else Anywhere)).
  { intros q H. destruct (literal_of q) as [[w0 [|]]|] eqn:Hl;
      try discriminate; injection H as <- <-; [exists true|exists false];
      (split; [now apply literal_of_word_pattern|reflexivity]). }
  destruct p; try (right; now apply Hgen).
  destruct p1; try (right; now apply Hgen).
  left. destruct (literal_of p2) as [[w0 [|]]|] eqn:Hl; try discriminate;
    injection Ha as <- <-; [exists true|exists false];
    (split; [f_equal; now apply literal_of_word_pattern|reflexivity]).
Qed.

(** A signature with the flag [i] alone whose pattern is a word, anchored
    or not, matches exactly the paths that have the word, in any letter
    case: [^word$] the path that is the word, [^word] the paths that start
    with it, [word$] the paths that end with it, [word] the paths that
    contain it. *)
Theorem anchoring_rules r p a w path :
  flags r = "i"%string ->
  Regex.parse (source r) = Some p ->
  anchoring p = Some (a, w) ->
  (matches r path = true <-> has_word a w path).
Proof.
  intros Hf Hp Ha.
  assert (Hi : ignoreCase r = true)
    by (unfold ignoreCase, has_flag; now rewrite Hf).
  assert (Hm : multiline r = false)
    by (unfold multiline, has_flag; now rewrite Hf).
  assert (Hy : sticky r = false)
    by (unfold sticky, has_flag; now rewrite Hf).
  destruct (anchoring_cases p Ha) as [[e [-> ->]]|[e [-> ->]]].
  - (* anchored at the start *)
    rewrite (@matches_anchored r (word_pattern w e) path Hp Hm Hy).
    rewrite Hi, m_word_pattern. unfold has_word.
    destruct (has_at (Str.chars path) 0 w) eqn:Hat.
    + apply (@has_at_factor (Str.chars path) 0 w (Nat.le_0_l _)) in Hat.
      destruct Hat as (pre & x & post & Heq & Hpre & Hx).
      apply length_zero_iff_nil in Hpre. subst pre.
      pose proof (Forall2_fold_length Hx) as Hl.
      destruct e.
      * destruct (0 + List.length w =? List.length (Str.chars path)) eqn:Hlen;
          simpl.
        -- split; [intros _|reflexivity].
           exists [], x, post. split; [exact Heq|]. split; [exact Hx|].
           split; [reflexivity|].
           apply Nat.eqb_eq in Hlen. rewrite Heq in Hlen.
           simpl in Hlen. rewrite length_app in Hlen.
           apply length_zero_iff_nil. lia.
        -- split; [discriminate|].
           intros (pre' & x' & post' & Heq' & Hx' & -> & ->).
           apply Nat.eqb_neq in Hlen. exfalso. apply Hlen.
           rewrite Heq'. simpl. rewrite app_nil_r.
           now rewrite (Forall2_fold_length Hx').
      * simpl. split; [intros _|reflexivity].
        exists [], x, post. auto.
    + simpl. split; [discriminate|].
      intros (pre' & x' & post' & Heq' & Hx' & Hpos).
      assert (pre' = []) by (destruct e; tauto). subst pre'.
      assert (Hat' : has_at (Str.chars path) 0 w = true).
      { apply has_at_factor; [lia|]. exists [], x', post'. auto. }
      congruence.
  - (* not anchored at the start *)
    rewrite <- (@finds_matches r path Hy). unfold finds, has_word.
    rewrite Hi, Hm. split.
    + intros (p' & start & e' & Hp' & Hstart & Hmatch).
      rewrite Hp in Hp'. injection Hp' as <-.
      rewrite m_word_pattern in Hmatch.
      destruct (has_at (Str.chars path) start w) eqn:Hat; [|discriminate].
      rewrite <- chars_length in Hstart.
      apply (@has_at_factor (Str.chars path) start w Hstart) in Hat.
      destruct Hat as (pre & x & post & Heq & Hpre & Hx).
      exists pre, x, post. split; [exact Heq|]. split; [exact Hx|].
      destruct e; [|exact I].
      destruct (start + List.length w =? List.length (Str.chars path)) eqn:Hlen;
        [|discriminate].
      apply Nat.eqb_eq in Hlen. rewrite Heq in Hlen.
      rewrite !length_app, (Forall2_fold_length Hx) in Hlen.
      apply length_zero_iff_nil. lia.
    + intros (pre & x & post & Heq & Hx & Hpos).
      exists (word_pattern w e), (List.length pre),
        (List.length pre + List.length w).
      split; [exact Hp|].
      assert (Hle : List.length pre <= List.length (Str.chars path))
        by (rewrite Heq, length_app; lia).
      split; [now rewrite <- chars_length|].
      rewrite m_word_pattern.
      assert (Hat : has_at (Str.chars path) (List.length pre) w = true).
      { apply has_at_factor; [exact Hle|]. exists pre, x, post. auto. }
      rewrite Hat. destruct e; [|reflexivity].
      subst post.
      replace (List.length pre + List.length w
               =? List.length (Str.chars path)) with true; [reflexivity|].
      symmetry. apply Nat.eqb_eq.
      rewrite Heq, app_nil_r, length_app.
      now rewrite (Forall2_fold_length Hx).
Qed.

Lemma anchoring_rules_witness :
  (matches blog "/BLOG" = true <->
   has_word Exact (Str.chars "/blog") "/BLOG") /\
  classified Index.ATTACK_PATTERNS = 48 /\
  classified Part002.ATTACK_PATTERNS = 52 /\
  classified Part003.ATTACK_PATTERNS = 79.
Proof.
  split.
  - eapply (@anchoring_rules blog _ Exact (Str.chars "/blog") "/BLOG");
      reflexivity.
  - repeat split; vm_compute; reflexivity.
Defined.

(** ** The address of the log line *)

Lemma trim_start_head l a :
  hd_error (Str.trim_start l) = Some a -> Str.is_space a = false.
Proof.
  induction l as [|c l IH]; [discriminate|]. cbn [Str.trim_start].
  destruct (Str.is_space c) eqn:Hc; [exact IH|].
  simpl. intros H. injection H as <-. exact Hc.
Qed.

Lemma trim_start_In l a : In a (Str.trim_start l) -> In a l.
Proof.
  induction l as [|c l IH]; [trivial|]. cbn [Str.trim_start].
  destruct (Str.is_space c); [|trivial]. intros H. right. now apply IH.
Qed.

Lemma trim_start_snoc l a :
  Str.is_space a = false ->
  Str.trim_start (l ++ [a]) = Str.trim_start l ++ [a].
Proof.
  intros Ha. induction l as [|c l IH]; simpl.
  - now rewrite Ha.
  - destruct (Str.is_space c); [exact IH|reflexivity].
Qed.

Lemma chars_trim s :
  Str.chars (Str.trim s)
  = rev (Str.trim_start (rev (Str.trim_start (Str.chars s)))).
Proof. unfold Str.trim. apply chars_of_chars. Qed.

(** [trim] keeps code units of its argument, and leaves no blank at either
    end. *)
Lemma trim_shape s :
  (forall a, In a (Str.chars (Str.trim s)) -> In a (Str.chars s)) /\
  (forall a, hd_error (Str.chars (Str.trim s)) = Some a ->
             Str.is_space a = false) /\
  (forall a, hd_error (rev (Str.chars (Str.trim s))) = Some a ->
             Str.is_space a = false).
Proof.
  rewrite chars_trim. set (l := Str.trim_start (Str.chars s)).
  split; [|split].
  - intros a Ha. apply in_rev in Ha. apply trim_start_In in Ha.
    apply in_rev in Ha. now apply trim_start_In in Ha.
  - intros a Ha.
    destruct l as [|b m] eqn:Hl; [discriminate|].
    assert (Hb : Str.is_space b = false).
    { apply (@trim_start_head (Str.chars s)). fold l. now rewrite Hl. }
    cbn [rev] in Ha. rewrite (@trim_start_snoc (rev m) b Hb), rev_app_distr in Ha.
    simpl in Ha. injection Ha as <-. exact Hb.
  - intros a Ha. rewrite rev_involutive in Ha.
    now apply trim_start_head in Ha.
Qed.

Lemma before_comma_no_comma v : ~ In ","%char (Str.chars (before_comma v)).
Proof.
  induction v as [|c v IH]; [intros []|]. cbn [before_comma].
  destruct (Ascii.eqb c ",") eqn:Hc; [intros []|].
  intros [H|H]; [|now apply IH].
  subst c. discriminate.
Qed.

Lemma eqb_empty_false s : (s =? "")%string = false <-> s <> ""%string.
Proof. apply String.eqb_neq. Qed.

(** The address of the log line is never empty.  When the
    [cf-connecting-ip] header is absent or empty and the first value of
    [x-forwarded-for] is not blank, the address is that value without the
    blanks around it: it holds no comma and neither starts nor ends with a
    blank. *)
Theorem client_ip_shape c :
  client_ip c <> ""%string /\
  (forall v,
     truthy (req_header c "cf-connecting-ip") = false ->
     req_header c "x-forwarded-for" = Some v ->
     Str.trim (before_comma v) <> ""%string ->
     client_ip c = Str.trim (before_comma v) /\
     ~ In ","%char (Str.chars (client_ip c)) /\
     (forall a, hd_error (Str.chars (client_ip c)) = Some a ->
                Str.is_space a = false) /\
     (forall a, hd_error (rev (Str.chars (client_ip c))) = Some a ->
                Str.is_space a = false)).
Proof.
  split.
  - rewrite client_ip_identifier. unfold client_identifier.
    cbn [first_usable].
    repeat match goal with
           | |- context [match ?o with Some _ => _ | None => _ end] =>
               destruct o
           | |- context [(?s =? "")%string] =>
               let E := fresh in
               destruct (s =? "")%string eqn:E;
               [|apply eqb_empty_false in E]
           end; try assumption; discriminate.
  - intros v Hcf Hx Hne.
    assert (Hip : client_ip c = Str.trim (before_comma v)).
    { rewrite client_ip_identifier. unfold client_identifier.
      rewrite Hx. cbn [first_usable option_map].
      apply eqb_empty_false in Hne. rewrite Hne.
      unfold truthy in Hcf.
      destruct (req_header c "cf-connecting-ip") as [cf|]; [|reflexivity].
      apply negb_false_iff in Hcf. now rewrite Hcf. }
    split; [exact Hip|]. rewrite Hip.
    destruct (trim_shape (before_comma v)) as [Hin [Hhd Hlast]].
    split; [|split; assumption].
    intros Hc. apply Hin in Hc. now apply before_comma_no_comma in Hc.
Qed.

Lemma client_ip_shape_witness :
  client_ip (mkContext "/wp-admin" "GET"
               (fun name => if (name =? "x-forwarded-for")%string
                            then Some "  203.0.113.5 , 10.0.0.1"%string
                            else None))
  = "203.0.113.5"%string.
Proof.
  set (c := mkContext _ _ _).
  destruct (client_ip_shape c) as [_ H].
  destruct (H "  203.0.113.5 , 10.0.0.1"%string) as [Hip _];
    [reflexivity|reflexivity|vm_compute; discriminate|].
  rewrite Hip. vm_compute. reflexivity.
Defined.

(** ** Worlds at rest *)

Lemma in_fragment_parses r :
  in_fragment r = true -> Regex.parse (source r) <> None.
Proof.
  unfold in_fragment. intros H. apply andb_true_iff in H. destruct H as [H _].
  destruct (Regex.parse (source r)); [discriminate|discriminate H].
Qed.

Lemma modelled_parses rules r :
  modelled rules = true -> In r rules -> Regex.parse (source r) <> None.
Proof.
  unfold modelled. rewrite forallb_forall. intros H Hr.
  apply in_fragment_parses. now apply H.
Qed.

Lemma test_rested rules r path w :
  In r rules -> rested rules w ->
  fst (test r path w) = matches r path /\
  (fst (test r path w) = false -> rested rules (snd (test r path w))).
Proof.
  intros Hr Hw. unfold test, matches, bind, tick, ret, set_lastIndex; simpl.
  destruct (Regex.parse (source r)) as [p|] eqn:Hp.
  - destruct (stateful r) eqn:Hs; simpl.
    + rewrite (Hw r Hr Hs).
      destruct (exec_from r p path 0) as [[b e]|]; simpl.
      * split; [reflexivity|discriminate].
      * split; [reflexivity|]. intros _ q Hq Hqs. simpl.
        destruct (ref q =? ref r); [reflexivity|now apply Hw].
    + split; [reflexivity|]. intros _ q Hq Hqs. simpl. now apply Hw.
  - split; [reflexivity|]. intros _ q Hq Hqs. simpl. now apply Hw.
Qed.

Lemma some_rested rules path l w :
  (forall r, In r l -> In r rules) -> rested rules w ->
  fst (some (fun p => test p path) l w)
  = existsb (fun r => matches r path) l.
Proof.
  revert w; induction l as [|r l IH]; intros w Hl Hw; [reflexivity|].
  cbn [some existsb]. unfold bind.
  destruct (@test_rested rules r path w (Hl r (or_introl eq_refl)) Hw)
    as [Hm Hrest].
  destruct (test r path w) as [b w1]. simpl in Hm, Hrest. rewrite <- Hm.
  destruct b; [reflexivity|]. cbn [orb].
  apply IH; [|now apply Hrest]. intros q Hq. apply Hl. now right.
Qed.

(** A test that fails leaves at 0 every [lastIndex] that was at 0, and
    that of its own signature when that one is global or sticky. *)
Lemma test_false_zero r path w :
  fst (test r path w) = false ->
  (forall l, lastIndex w l = 0 -> lastIndex (snd (test r path w)) l = 0) /\
  (stateful r = true -> Regex.parse (source r) <> None ->
   lastIndex (snd (test r path w)) (ref r) = 0).
Proof.
  unfold test, bind, tick, ret, set_lastIndex; simpl.
  destruct (Regex.parse (source r)) as [p|] eqn:Hp.
  - destruct (stateful r) eqn:Hs; simpl.
    + destruct (exec_from r p path _) as [[b e]|]; simpl; [discriminate|].
      intros _. split.
      * intros l Hl. now destruct (l =? ref r).
      * intros _ _. now rewrite Nat.eqb_refl.
    + intros _. split; [trivial|discriminate].
  - intros _. split; [trivial|]. intros _ H. now elim H.
Qed.

Lemma some_false_zero path l w :
  fst (some (fun p => test p path) l w) = false ->
  (forall x, lastIndex w x = 0 ->
             lastIndex (snd (some (fun p => test p path) l w)) x = 0) /\
  (forall r, In r l -> stateful r = true -> Regex.parse (source r) <> None ->
             lastIndex (snd (some (fun p => test p path) l w)) (ref r) = 0).
Proof.
  revert w; induction l as [|r l IH]; intros w.
  - intros _. split; [trivial|intros r []].
  - cbn [some]. unfold bind.
    pose proof (test_false_zero r path w) as Ht.
    destruct (test r path w) as [b w1]. simpl in Ht.
    destruct b; [discriminate|]. intros Hf.
    destruct (Ht eq_refl) as [Hkeep Hself].
    destruct (IH w1 Hf) as [IHkeep IHin].
    split.
    + intros x Hx. apply IHkeep. now apply Hkeep.
    + intros q [<-|Hq] Hs Hp.
      * apply IHkeep. now apply Hself.
      * now apply IHin.
Qed.

(** A request that is passed on leaves the world at rest: every global or
    sticky signature has been tested and has failed. *)
Lemma honeypot_next_rested t path_of options c w :
  modelled (patterns t options) = true ->
  fst (honeypot t path_of options c w) = next ->
  rested (patterns t options) (snd (honeypot t path_of options c w)).
Proof.
  intros Hmod. unfold honeypot, bind.
  pose proof (some_false_zero (path_of (req_path c)) (patterns t options) w)
    as Hz.
  destruct (some _ (patterns t options) w) as [b w1]. simpl in Hz.
  destruct b.
  - destruct (shouldLog options); unfold console_log, ret; simpl;
      discriminate.
  - unfold ret; simpl. intros _. destruct (Hz eq_refl) as [_ Hin].
    intros r Hr Hs. apply Hin; [exact Hr|exact Hs|].
    now apply (modelled_parses (patterns t options)).
Qed.

(** For a rule list of signatures of the modelled engine: in a world at
    rest, which the initial world is, the handler blocks the request if
    and only if a signature of the rule list matches the path it tests,
    whatever the flags [g] and [y] of the signatures; and from any world a
    request that is passed on leaves the world at rest. *)
Theorem rested_world_decision t path_of options c w :
  modelled (patterns t options) = true ->
  let rules := patterns t options in
  let res := honeypot t path_of options c w in
  rested rules world0 /\
  (rested rules w ->
   (fst res = blocked options <->
    exists r, In r rules /\ matches r (path_of (req_path c)) = true)) /\
  (fst res = next -> rested rules (snd res)).
Proof.
  intros Hmod. cbv zeta. split; [intros r _ _; reflexivity|]. split.
  - intros Hw. rewrite honeypot_blocked_iff.
    rewrite (@some_rested (patterns t options)) by (trivial || exact Hw).
    apply existsb_exists.
  - now apply honeypot_next_rested.
Qed.

(** The configuration that adds [/^\/secret/g], at the second request for
    [/secret]: it starts with the [lastIndex] of the addition at 7, is
    passed on, and leaves the world at rest. *)
Lemma rested_world_decision_witness :
  let rules := patterns Index.ATTACK_PATTERNS options_secret_g in
  let w1 := snd (Index.honeypot options_secret_g (get "/secret") world0) in
  lastIndex w1 (ref secret_g) = 7 /\
  rested rules (snd (Index.honeypot options_secret_g (get "/secret") w1)).
Proof.
  intros rules w1. split; [vm_compute; reflexivity|].
  destruct (@rested_world_decision Index.ATTACK_PATTERNS (fun p => p)
              options_secret_g (get "/secret") w1) as [_ [_ H]].
  - vm_compute. reflexivity.
  - apply H. vm_compute. reflexivity.
Defined.

(** For a rule list of signatures of the modelled engine, a path that a
    signature of the rule list matches is not passed on twice in a row:
    when such a request goes to [next()], the request made next for the
    same path is blocked, whatever the flags [g] and [y] of the signatures
    and the world the first one started in. *)
Theorem no_match_passes_twice_in_a_row t path_of options c c' w :
  modelled (patterns t options) = true ->
  path_of (req_path c') = path_of (req_path c) ->
  (exists r, In r (patterns t options) /\
             matches r (path_of (req_path c)) = true) ->
  fst (honeypot t path_of options c w) = next ->
  fst (honeypot t path_of options c' (snd (honeypot t path_of options c w)))
  = blocked options.
Proof.
  intros Hmod Hp Hm Hn. apply honeypot_blocked_iff.
  rewrite (@some_rested (patterns t options))
    by (trivial || now apply honeypot_next_rested).
  rewrite Hp. now apply existsb_exists.
Qed.

Lemma no_match_passes_twice_in_a_row_witness :
  let w1 := snd (Index.honeypot options_secret_g (get "/secret") world0) in
  let w2 := snd (Index.honeypot options_secret_g (get "/secret") w1) in
  fst (Index.honeypot options_secret_g (get "/secret") w2)
  = blocked options_secret_g.
Proof.
  intros w1 w2.
  apply (@no_match_passes_twice_in_a_row Index.ATTACK_PATTERNS (fun p => p)
           options_secret_g (get "/secret") (get "/secret") w1).
  - vm_compute. reflexivity.
  - reflexivity.
  - exists secret_g. split; [|vm_compute; reflexivity].
    apply in_patterns. split; [|reflexivity].
    apply in_or_app. right. now left.
  - vm_compute. reflexivity.
Defined.

(** ** An exclusion and an addition with one source text *)

(** A signature whose source text an exclusion has cannot be added: the
    configuration with the signature among its additions has the rule
    list, and the handler, of the configuration without it, whatever the
    flags of the two. *)
Theorem exclusion_beats_addition t path_of options r e :
  In e (exclusions options) ->
  source e = source r ->
  patterns t (with_more_patterns options [r]) = patterns t options /\
  forall c w,
    honeypot t path_of (with_more_patterns options [r]) c w
    = honeypot t path_of options c w.
Proof.
  intros He Hs.
  assert (Hp : patterns t (with_more_patterns options [r])
               = patterns t options).
  { rewrite !patterns_filter. unfold with_more_patterns, additions; simpl.
    rewrite app_assoc, filter_app. cbn [filter].
    replace (survives _ r) with false; [apply app_nil_r|].
    symmetry. apply removed_iff. exists e. split; [exact He|exact Hs]. }
  split; [exact Hp|]. intros c w. unfold honeypot. now rewrite Hp.
Qed.

Lemma exclusion_beats_addition_witness :
  let options := mkOptions None (Some [blog]) (Some false) None in
  fst (Index.honeypot (with_more_patterns options [blog_case_sensitive])
         (get "/blog") world0) = next.
Proof.
  intros options.
  destruct (@exclusion_beats_addition Index.ATTACK_PATTERNS (fun p => p)
              options blog_case_sensitive blog) as [_ H].
  - simpl. now left.
  - reflexivity.
  - unfold Index.honeypot. rewrite H. vm_compute. reflexivity.
Defined.
